(** * weibo-search: the command-line entry point [weibo/main.py]

    A shallow embedding of [main.py] and of the library calls it relies on
    ([str.split], [str.strip], [datetime.strptime], Scrapy's [Settings]),
    followed by the properties of the program that the specification states.

    Python strings are sequences of Unicode code points, so a [str] is a
    [list N]; settings keys, which are identifiers, are Rocq strings. *)

From Stdlib Require Import ZArith NArith List Bool String Ascii Lia.
From Stdlib Require Import SpecFloat.
From stdpp Require Import base option list list_numbers gmap strings sets.

Set Warnings "-register-all,-clear-no-such-hyp".
Local Open Scope Z_scope.

(** ** Python strings *)

Abbreviation pystr := (list N).

(** A string literal of the source that only has ASCII characters. *)
Definition lit (s : string) : pystr :=
  (fun a => N_of_ascii a) <$> list_ascii_of_string s.

Module Str.

(** [str.isspace] on one character: CPython's [_PyUnicode_IsWhitespace]. *)
Definition isspace (c : N) : bool :=
  ((9 <=? c) && (c <=? 13) || (28 <=? c) && (c <=? 32)
   || (c =? 133) || (c =? 160) || (c =? 5760)
   || (8192 <=? c) && (c <=? 8202)
   || (c =? 8232) || (c =? 8233) || (c =? 8239) || (c =? 8287)
   || (c =? 12288))%N.

(** [s.lstrip()]: the index runs right while it sees whitespace. *)
Fixpoint lstrip (s : pystr) : pystr :=
  match s with
  | c :: t => if isspace c then lstrip t else s
  | [] => []
  end.

(** [s.rstrip()]: the same scan from the right end. *)
Definition rstrip (s : pystr) : pystr := reverse (lstrip (reverse s)).

(** [s.strip()] with no argument. *)
Definition strip (s : pystr) : pystr := rstrip (lstrip s).

(** [s.split(sep)] for a one-character separator and no [maxsplit]: every
    occurrence of [sep] ends a field; the result is never empty. *)
Fixpoint split (sep : N) (s : pystr) : list pystr :=
  match s with
  | [] => [[]]
  | c :: t =>
      if (c =? sep)%N then [] :: split sep t
      else match split sep t with
           | f :: fs => (c :: f) :: fs
           | [] => [[c]]
           end
  end.

(** [sep.join(fields)] for a one-character separator. *)
Fixpoint join (sep : N) (fields : list pystr) : pystr :=
  match fields with
  | [] => []
  | [f] => f
  | f :: fs => f ++ sep :: join sep fs
  end.

(** Truth value of a string: non-empty. *)
Definition truthy (s : pystr) : bool :=
  match s with [] => false | _ :: _ => true end.

End Str.

(** The comma of [split(',')] and the hyphen of ['%Y-%m-%d']. *)
Definition comma : N := 44%N.
Definition hyphen : N := 45%N.

(** ** [datetime.strptime(s, '%Y-%m-%d')]

    CPython's [_strptime] turns the format into the regular expression
    [(?P<Y>\d\d\d\d)-(?P<m>1[0-2]|0[1-9]|[1-9])-(?P<d>3[0-1]|[1-2]\d|0[1-9]|[1-9]| [1-9])],
    matches it at the start of the input with ordered alternatives, fails with
    ValueError when text remains after the match, converts the three groups
    with [int], and builds the date, which fails with ValueError when the
    year is 0 or the day does not exist in the month. *)

Module Re.

Inductive group := GY | Gm | Gd.

Inductive regex :=
| Chr (c : N)                  (* a literal character *)
| Range (lo hi : N)            (* [lo-hi] *)
| Digit                        (* \d : any Unicode decimal digit *)
| Seq (a b : regex)
| Alt (a b : regex)            (* a|b, tried in this order *)
| Group (g : group) (r : regex).

(** The text captured by each named group. *)
Record captures := { capY : pystr; capm : pystr; capd : pystr }.

Definition no_captures : captures := {| capY := []; capm := []; capd := [] |}.

Definition capture (g : group) (text : pystr) (c : captures) : captures :=
  match g with
  | GY => {| capY := text; capm := capm c; capd := capd c |}
  | Gm => {| capY := capY c; capm := text; capd := capd c |}
  | Gd => {| capY := capY c; capm := capm c; capd := text |}
  end.

Section Matcher.

(** The decimal value of a code point of category Nd, from the Unicode
    database of the interpreter; [None] for every other code point. *)
Variable decimal : N -> option N.

(** Backtracking match of [r] at the head of [s]; [k] is the rest of the
    pattern, given the unread input and the captures so far. *)
Fixpoint rmatch {R : Type} (r : regex) (s : pystr) (c : captures)
    (k : pystr -> captures -> option R) : option R :=
  match r with
  | Chr x =>
      match s with
      | y :: t => if (y =? x)%N then k t c else None
      | [] => None
      end
  | Range lo hi =>
      match s with
      | y :: t => if ((lo <=? y) && (y <=? hi))%N then k t c else None
      | [] => None
      end
  | Digit =>
      match s with
      | y :: t => match decimal y with Some _ => k t c | None => None end
      | [] => None
      end
  | Seq a b => rmatch a s c (fun s' c' => rmatch b s' c' k)
  | Alt a b =>
      match rmatch a s c k with
      | Some res => Some res
      | None => rmatch b s c k
      end
  | Group g a =>
      rmatch a s c
        (fun s' c' => k s' (capture g (take (length s - length s') s) c'))
  end.

(** [re.match(r, s)]: the captures and the unread rest of the input. *)
Definition match_prefix (r : regex) (s : pystr) : option (captures * pystr) :=
  rmatch r s no_captures (fun rest c => Some (c, rest)).

(** [int(text)]: surrounding whitespace is dropped, what is left must be
    a non-empty run of decimal digits ([None] stands for ValueError). *)
Definition int_of_digits (digits : pystr) : option Z :=
  foldl (fun acc ch =>
           match acc, decimal ch with
           | Some n, Some v => Some (10 * n + Z.of_N v)
           | _, _ => None
           end) (Some 0) digits.

Definition int (text : pystr) : option Z :=
  match Str.strip text with
  | [] => None
  | digits => int_of_digits digits
  end.

End Matcher.

Definition d0 : N := 48%N.
Definition d1 : N := 49%N.
Definition d2 : N := 50%N.
Definition d3 : N := 51%N.
Definition d9 : N := 57%N.
Definition space : N := 32%N.

Definition re_Y : regex := Seq Digit (Seq Digit (Seq Digit Digit)).
Definition re_m : regex :=
  Alt (Seq (Chr d1) (Range d0 d2))
    (Alt (Seq (Chr d0) (Range d1 d9)) (Range d1 d9)).
Definition re_d : regex :=
  Alt (Seq (Chr d3) (Range d0 d1))
    (Alt (Seq (Range d1 d2) Digit)
       (Alt (Seq (Chr d0) (Range d1 d9))
          (Alt (Range d1 d9) (Seq (Chr space) (Range d1 d9))))).

(** The pattern of the format ['%Y-%m-%d']. *)
Definition date_pattern : regex :=
  Seq (Group GY re_Y)
    (Seq (Chr hyphen) (Seq (Group Gm re_m) (Seq (Chr hyphen) (Group Gd re_d)))).

End Re.

(** Only the ASCII digits: the least table every interpreter agrees on. *)
Definition ascii_decimal (c : N) : option N :=
  if ((48 <=? c) && (c <=? 57))%N then Some (c - 48)%N else None.

(** ** Exceptions and results *)

(** The exceptions the program meets. [SystemExit] and [KeyboardInterrupt]
    are not subclasses of [Exception]; the others are. *)
Inductive exc_class := ValueError | TypeError | OSError | OtherException.

Inductive exn :=
| SystemExit (code : Z)
| KeyboardInterrupt
| Exception (cls : exc_class).

Inductive result (A : Type) :=
| Ret (a : A)
| Raise (e : exn).
Arguments Ret {A} a.
Arguments Raise {A} e.

(** ** Dates *)

(** The [datetime] that ['%Y-%m-%d'] produces: the time of day is midnight
    and there is no time zone, so the three date fields are all of it. *)
Record datetime := { year : Z; month : Z; day : Z }.

Definition is_leap (y : Z) : bool :=
  (y mod 4 =? 0) && (negb (y mod 100 =? 0) || (y mod 400 =? 0)).

Definition days_in_month (y m : Z) : Z :=
  if m =? 2 then (if is_leap y then 29 else 28)
  else if (m =? 4) || (m =? 6) || (m =? 9) || (m =? 11) then 30
  else 31.

(** The checks of the [date] constructor. *)
Definition valid_date (y m d : Z) : bool :=
  (1 <=? y) && (y <=? 9999) && (1 <=? m) && (m <=? 12)
  && (1 <=? d) && (d <=? days_in_month y m).

(** [a > b] on datetimes: the fields compared in order. *)
Definition dt_gt (a b : datetime) : bool :=
  (year b <? year a)
  || (year a =? year b)
     && ((month b <? month a)
         || (month a =? month b) && (day b <? day a)).

Section Strptime.

Variable decimal : N -> option N.

(** [datetime.strptime(s, '%Y-%m-%d')]; every failure is a ValueError. *)
Definition strptime (s : pystr) : result datetime :=
  match Re.match_prefix decimal Re.date_pattern s with
  | None => Raise (Exception ValueError)
  | Some (c, rest) =>
      if Str.truthy rest then Raise (Exception ValueError)
      else
        match Re.int decimal (Re.capY c), Re.int decimal (Re.capm c),
              Re.int decimal (Re.capd c) with
        | Some y, Some m, Some d =>
            if valid_date y m d
            then Ret {| year := y; month := m; day := d |}
            else Raise (Exception ValueError)
        | _, _, _ => Raise (Exception ValueError)
        end
  end.

(** [validate_date]: [True] when the parse succeeds, [False] on ValueError;
    any other exception would propagate. *)
Definition validate_date (date_string : pystr) : result bool :=
  match strptime date_string with
  | Ret _ => Ret true
  | Raise (Exception ValueError) => Ret false
  | Raise e => Raise e
  end.

End Strptime.

(** ** Python values and the settings object *)

(** The values a setting can hold. A float is its IEEE-754 value. *)
Inductive pyval :=
| VNone
| VBool (b : bool)
| VInt (z : Z)
| VFloat (f : spec_float)
| VStr (s : pystr)
| VList (items : list pyval).

(** Truth value of an object, as [if x:] and [not x] compute it. *)
Definition truthy (v : pyval) : bool :=
  match v with
  | VNone => false
  | VBool b => b
  | VInt z => negb (z =? 0)
  | VFloat (S754_zero _) => false
  | VFloat _ => true
  | VStr s => Str.truthy s
  | VList items => match items with [] => false | _ :: _ => true end
  end.

(** Truth value of an optional string argument: absent ([None]) and the
    empty string are both false. *)
Definition given (a : option pystr) : bool :=
  match a with
  | Some s => Str.truthy s
  | None => false
  end.

(** Scrapy's [Settings]: a mapping from names to values. Every value that
    [get_project_settings] returns has priority 'project' or lower, and
    [set] writes at priority 'project', so [set] always stores its value. *)
Abbreviation settings := (gmap string pyval).

Module Settings.

Definition set (name : string) (value : pyval) (s : settings) : settings :=
  <[name := value]> s.

(** [settings.get(name, default)]: the default also replaces a stored
    [None]. *)
Definition get (name : string) (default : pyval) (s : settings) : pyval :=
  match s !! name with
  | Some VNone | None => default
  | Some v => v
  end.

End Settings.

(** ** Command-line arguments *)

Inductive log_level := CRITICAL | ERROR | WARNING | INFO | DEBUG.

Definition log_level_name (l : log_level) : pystr :=
  match l with
  | CRITICAL => lit "CRITICAL"
  | ERROR => lit "ERROR"
  | WARNING => lit "WARNING"
  | INFO => lit "INFO"
  | DEBUG => lit "DEBUG"
  end.

(** The namespace [parse_arguments] returns. Every option is [None] when
    its flag is absent, but [--log-level], whose default is 'ERROR'. *)
Record Args := {
  keywords : option pystr;
  keyword_file : option pystr;
  start_date : option pystr;
  end_date : option pystr;
  weibo_type : option Z;
  contain_type : option Z;
  region : option pystr;
  limit : option Z;
  delay : option spec_float;
  output_dir : option pystr;
  arg_log_level : log_level
}.

(** ** What the program does to the outside *)

(** The entries of the [errors] list of [validate_arguments]. *)
Inductive arg_error :=
| ErrStartFormat (s : pystr)      (* 开始日期格式错误 *)
| ErrEndFormat (s : pystr)        (* 结束日期格式错误 *)
| ErrDateOrder                    (* 开始日期不能晚于结束日期 *)
| ErrKeywordFile (f : pystr)      (* 关键词文件不存在 *)
| ErrOutputDir (d : pystr) (e : exc_class).   (* 无法创建输出目录 *)

(** The lines the program prints, one constructor per [print] call; the
    arguments are the values the line is formatted from. *)
Inductive line :=
| LStarting                       (* 微博搜索爬虫启动中... *)
| LHelp                           (* the help text of argparse *)
| LValidationFailed               (* 参数验证失败: *)
| LError (e : arg_error)          (*   - {error} *)
| LKeywords (l : list pystr)      (* 使用关键词 *)
| LKeywordFile (f : pystr)        (* 使用关键词文件 *)
| LStartDate (s : pystr)
| LEndDate (s : pystr)
| LWeiboType (t : Z)
| LContainType (t : Z)
| LRegion (l : list pystr)
| LLimit (n : Z)
| LDelay (f : spec_float)
| LOutputDir (d : pystr)
| LLogLevel (l : log_level)
| LBanner                         (* the rule of 50 '=' signs *)
| LSummaryTitle
| LSummaryKeywordFile (f : pystr)
| LSummaryKeywords (l : option (list pystr))      (* None: 未设置 *)
| LSummaryDates (a b : pyval)
| LSummaryWeiboType (t : pyval)
| LSummaryContainType (t : pyval)
| LSummaryRegion (r : pyval)
| LSummaryLimit (n : pyval)
| LSummaryDelay (d : pyval)
| LNoKeywords                     (* 错误: 未设置搜索关键词 *)
| LNoKeywordsHint                 (* 请使用 --keywords 参数指定关键词 ... *)
| LNoKeywordsExample              (* 例如: python main.py --keywords ... *)
| LReady                          (* 准备开始爬取... *)
| LStopHint                       (* 按 Ctrl+C 可随时停止爬虫 *)
| LFinished                       (* 爬虫已完成! *)
| LInterrupted                    (* 用户中断，爬虫已停止 *)
| LRuntimeError (e : exc_class).  (* 爬虫运行时发生错误 *)

(** An observable action: output, the file system, the crawl engine. *)
Inductive event :=
| EPrint (l : line)
| EMakedirs (d : pystr)
| EGetProjectSettings
| ECrawlerProcess (s : settings)
| ECrawl (spider : string)
| EStart.

(** What [parser.parse_args()] makes of the command line of the process:
    the namespace; for [-h] or [--help] the help text on stdout and exit
    status 0; for an unknown flag, a missing value or a value that [type]
    or [choices] refuses, the usage message on stderr and exit status 2. *)
Inductive parse_outcome :=
| Parsed (args : Args)
| Help
| Rejected.

(** The world the program runs in. *)
Record World := {
  parse_args : parse_outcome;               (* parser.parse_args() on sys.argv *)
  unicode_decimal : N -> option N;          (* the Unicode database, category Nd *)
  isfile : pystr -> bool;                   (* os.path.isfile *)
  isdir : pystr -> bool;                    (* os.path.isdir *)
  makedirs : pystr -> option exc_class;     (* os.makedirs: the exception, if any *)
  project_settings : result settings;       (* get_project_settings() *)
  engine_create : settings -> option exn;   (* CrawlerProcess(settings) *)
  engine_crawl : string -> option exn;      (* process.crawl(name) *)
  engine_start : option exn                 (* process.start() *)
}.

(** ** Computations with output and exceptions *)

Definition M (A : Type) : Type := list event * result A.

Definition ret {A} (a : A) : M A := ([], Ret a).

Definition bind {A B} (m : M A) (f : A -> M B) : M B :=
  match m with
  | (t, Ret a) => let (t', r) := f a in (t ++ t', r)
  | (t, Raise e) => (t, Raise e)
  end.

Definition raise {A} (e : exn) : M A := ([], Raise e).

Definition emit (e : event) : M unit := ([e], Ret tt).

Definition print (l : line) : M unit := emit (EPrint l).

(** [try: m except ...: handler]; the handler re-raises what it does not
    catch. *)
Definition try_except {A} (m : M A) (handler : exn -> M A) : M A :=
  match m with
  | (t, Raise e) => let (t', r) := handler e in (t ++ t', r)
  | (t, Ret a) => (t, Ret a)
  end.

(** A call into the world that either returns or raises. *)
Definition call (e : event) (outcome : option exn) : M unit :=
  match outcome with
  | None => emit e
  | Some x => bind (emit e) (fun _ => raise x)
  end.

Definition trace {A} (m : M A) : list event := fst m.
Definition outcome {A} (m : M A) : result A := snd m.

(** With these instances a function body reads [x ← m; k] and [m;; k]. *)
#[global] Instance M_ret : MRet M := @ret.
#[global] Instance M_bind : MBind M := fun A B f m => bind m f.

(** [for x in xs: body]. *)
Fixpoint for_each {A} (xs : list A) (body : A -> M unit) : M unit :=
  match xs with
  | [] => ret tt
  | x :: rest => bind (body x) (fun _ => for_each rest body)
  end.

(** [when c m]: [if c: m]. *)
Definition when (c : bool) (m : M unit) : M unit := if c then m else ret tt.

(** The exit status of the interpreter for the way [main] ends. *)
Definition exit_status (r : result unit) : Z :=
  match r with
  | Ret _ => 0
  | Raise (SystemExit code) => code
  | Raise KeyboardInterrupt => 130
  | Raise (Exception _) => 1
  end.

(** A pure computation that may raise, run inside [M]. *)
Definition lift {A} (r : result A) : M A := ([], r).

(** The text of an optional string argument that is known to be given. *)
Definition text (a : option pystr) : pystr := default [] a.

(** ** [validate_arguments] *)

(** [[x.strip() for x in s.split(',') if x.strip()]], the comprehension of
    lines 148 and 178. *)
Definition comma_list (s : pystr) : list pystr :=
  map Str.strip (List.filter (fun x => Str.truthy (Str.strip x)) (Str.split comma s)).

Section Program.

Variable w : World.

(** Lines 112-113. *)
Definition check_start_format (args : Args) (errors : list arg_error)
  : M (list arg_error) :=
  if given (start_date args) then
    ok ← lift (validate_date (unicode_decimal w) (text (start_date args)));
    mret (if negb ok then errors ++ [ErrStartFormat (text (start_date args))]
          else errors)
  else mret errors.

(** Lines 115-116. *)
Definition check_end_format (args : Args) (errors : list arg_error)
  : M (list arg_error) :=
  if given (end_date args) then
    ok ← lift (validate_date (unicode_decimal w) (text (end_date args)));
    mret (if negb ok then errors ++ [ErrEndFormat (text (end_date args))]
          else errors)
  else mret errors.

(** Lines 119-123: both dates are parsed again, outside any [try]. *)
Definition check_date_order (args : Args) (errors : list arg_error)
  : M (list arg_error) :=
  if given (start_date args) && given (end_date args) then
    start ← lift (strptime (unicode_decimal w) (text (start_date args)));
    end_ ← lift (strptime (unicode_decimal w) (text (end_date args)));
    mret (if dt_gt start end_ then errors ++ [ErrDateOrder] else errors)
  else mret errors.

(** Lines 126-127. *)
Definition check_keyword_file (args : Args) (errors : list arg_error)
  : M (list arg_error) :=
  if given (keyword_file args) && negb (isfile w (text (keyword_file args)))
  then mret (errors ++ [ErrKeywordFile (text (keyword_file args))])
  else mret errors.

(** Lines 130-134. *)
Definition check_output_dir (args : Args) (errors : list arg_error)
  : M (list arg_error) :=
  if given (output_dir args) && negb (isdir w (text (output_dir args))) then
    emit (EMakedirs (text (output_dir args)));;
    match makedirs w (text (output_dir args)) with
    | None => mret errors
    | Some e => mret (errors ++ [ErrOutputDir (text (output_dir args)) e])
    end
  else mret errors.

(** The [errors] list when line 136 is reached. *)
Definition collect_errors (args : Args) : M (list arg_error) :=
  errors ← check_start_format args [];
  errors ← check_end_format args errors;
  errors ← check_date_order args errors;
  errors ← check_keyword_file args errors;
  check_output_dir args errors.

(** Lines 136-140. *)
Definition report_errors (errors : list arg_error) : M unit :=
  match errors with
  | [] => mret tt
  | _ :: _ =>
      print LValidationFailed;;
      for_each errors (fun e => print (LError e));;
      raise (SystemExit 1)
  end.

Definition validate_arguments (args : Args) : M unit :=
  errors ← collect_errors args;
  report_errors errors.

(** ** [update_settings_from_args] *)

Definition str_list (l : list pystr) : pyval := VList (VStr <$> l).

(** Lines 147-153. *)
Definition update_keywords (args : Args) (s : settings) : M settings :=
  if given (keywords args) then
    let keyword_list := comma_list (text (keywords args)) in
    let s := Settings.set "KEYWORD_LIST" (str_list keyword_list) s in
    print (LKeywords keyword_list);; mret s
  else if given (keyword_file args) then
    let s := Settings.set "KEYWORD_LIST" (VStr (text (keyword_file args))) s in
    print (LKeywordFile (text (keyword_file args)));; mret s
  else mret s.

(** Lines 156-162. *)
Definition update_dates (args : Args) (s : settings) : M settings :=
  s ← (if given (start_date args) then
         let s := Settings.set "START_DATE" (VStr (text (start_date args))) s in
         print (LStartDate (text (start_date args)));; mret s
       else mret s);
  if given (end_date args) then
    let s := Settings.set "END_DATE" (VStr (text (end_date args))) s in
    print (LEndDate (text (end_date args)));; mret s
  else mret s.

(** Lines 165-174. *)
Definition update_types (args : Args) (s : settings) : M settings :=
  s ← match weibo_type args with
      | Some t =>
          let s := Settings.set "WEIBO_TYPE" (VInt t) s in
          print (LWeiboType t);; mret s
      | None => mret s
      end;
  match contain_type args with
  | Some t =>
      let s := Settings.set "CONTAIN_TYPE" (VInt t) s in
      print (LContainType t);; mret s
  | None => mret s
  end.

(** Lines 177-180. *)
Definition update_region (args : Args) (s : settings) : M settings :=
  if given (region args) then
    let region_list := comma_list (text (region args)) in
    let s := Settings.set "REGION" (str_list region_list) s in
    print (LRegion region_list);; mret s
  else mret s.

(** Lines 183-190. *)
Definition update_limits (args : Args) (s : settings) : M settings :=
  s ← match limit args with
      | Some n =>
          let s := Settings.set "LIMIT_RESULT" (VInt n) s in
          print (LLimit n);; mret s
      | None => mret s
      end;
  match delay args with
  | Some d =>
      let s := Settings.set "DOWNLOAD_DELAY" (VFloat d) s in
      print (LDelay d);; mret s
  | None => mret s
  end.

(** Lines 193-196. *)
Definition update_output_dir (args : Args) (s : settings) : M settings :=
  if given (output_dir args) then
    let s := Settings.set "IMAGES_STORE" (VStr (text (output_dir args))) s in
    let s := Settings.set "FILES_STORE" (VStr (text (output_dir args))) s in
    print (LOutputDir (text (output_dir args)));; mret s
  else mret s.

(** Lines 199-201. *)
Definition update_log_level (args : Args) (s : settings) : M settings :=
  let s := Settings.set "LOG_LEVEL" (VStr (log_level_name (arg_log_level args))) s in
  match arg_log_level args with
  | ERROR => mret s
  | l => print (LLogLevel l);; mret s
  end.

(** The settings object is mutated in place; here it is passed along. *)
Definition update_settings_from_args (s : settings) (args : Args) : M settings :=
  s ← update_keywords args s;
  s ← update_dates args s;
  s ← update_types args s;
  s ← update_region args s;
  s ← update_limits args s;
  s ← update_output_dir args s;
  update_log_level args s.

(** ** [print_config_summary] *)

(** [', '.join(items)]: every item has to be a string, TypeError
    otherwise. *)
Definition str_items (items : list pyval) : option (list pystr) :=
  mapM (fun v => match v with VStr s => Some s | _ => None end) items.

(** Lines 211-215. *)
Definition summary_keywords (s : settings) : M unit :=
  let keyword_list := Settings.get "KEYWORD_LIST" (VList []) s in
  match keyword_list with
  | VStr f => print (LSummaryKeywordFile f)
  | VList items =>
      if truthy keyword_list then
        match str_items items with
        | Some l => print (LSummaryKeywords (Some l))
        | None => raise (Exception TypeError)
        end
      else print (LSummaryKeywords None)
  | _ =>
      if truthy keyword_list then raise (Exception TypeError)
      else print (LSummaryKeywords None)
  end.

(** [names.get(key, '未知')] hashes the key: a list is a TypeError. *)
Definition summary_lookup (key : pyval) (l : line) : M unit :=
  match key with
  | VList _ => raise (Exception TypeError)
  | _ => print l
  end.

(** Lines 233-234. *)
Definition summary_region (s : settings) : M unit :=
  let region := Settings.get "REGION" (VList [VStr [20840; 37096]%N]) s in
  match region with
  | VList items =>
      match str_items items with
      | Some _ => print (LSummaryRegion region)
      | None => raise (Exception TypeError)
      end
  | _ => print (LSummaryRegion region)
  end.

(** 未设置, the default of lines 218-219. *)
Definition unset_text : pystr := [26410; 35774; 32622]%N.

Definition print_config_summary (s : settings) : M unit :=
  print LBanner;;
  print LSummaryTitle;;
  print LBanner;;
  summary_keywords s;;
  print (LSummaryDates (Settings.get "START_DATE" (VStr unset_text) s)
                       (Settings.get "END_DATE" (VStr unset_text) s));;
  (let weibo_type := Settings.get "WEIBO_TYPE" (VInt 0) s in
   summary_lookup weibo_type (LSummaryWeiboType weibo_type));;
  (let contain_type := Settings.get "CONTAIN_TYPE" (VInt 0) s in
   summary_lookup contain_type (LSummaryContainType contain_type));;
  summary_region s;;
  print (LSummaryLimit (Settings.get "LIMIT_RESULT" (VInt 0) s));;
  print (LSummaryDelay (Settings.get "DOWNLOAD_DELAY" (VInt 10) s));;
  print LBanner.

(** ** [main] *)

(** Lines 268-273. *)
Definition require_keywords (s : settings) : M unit :=
  let keyword_list := Settings.get "KEYWORD_LIST" VNone s in
  if negb (truthy keyword_list) then
    print LNoKeywords;;
    print LNoKeywordsHint;;
    print LNoKeywordsExample;;
    raise (SystemExit 1)
  else mret tt.

(** Lines 280-282. *)
Definition run_crawl (s : settings) : M unit :=
  call (ECrawlerProcess s) (engine_create w s);;
  call (ECrawl "search") (engine_crawl w "search");;
  call EStart (engine_start w).

(** Lines 258-284, the body of the [try]. *)
Definition main_body (args : Args) : M unit :=
  emit EGetProjectSettings;;
  s ← lift (project_settings w);
  s ← update_settings_from_args s args;
  print_config_summary s;;
  require_keywords s;;
  print LReady;;
  print LStopHint;;
  run_crawl s;;
  print LFinished.

(** Lines 286-291. [SystemExit] is neither of the two classes. *)
Definition main_handler (e : exn) : M unit :=
  match e with
  | KeyboardInterrupt => print LInterrupted;; raise (SystemExit 0)
  | Exception cls => print (LRuntimeError cls);; raise (SystemExit 1)
  | SystemExit code => raise (SystemExit code)
  end.

(** Lines 21-95. The parser is built from constants; what it returns is
    decided by the command line. The trace holds what goes to stdout,
    so the usage message is not in it. *)
Definition parse_arguments : M Args :=
  match parse_args w with
  | Parsed args => mret args
  | Help => print LHelp;; raise (SystemExit 0)
  | Rejected => raise (SystemExit 2)
  end.

(** Lines 247-291. *)
Definition main : M unit :=
  print LStarting;;
  args ← parse_arguments;
  validate_arguments args;;
  try_except (main_body args) main_handler.

End Program.

(** * The crawl engine

    [main] hands the settings to the spider named ['search']. The spider is
    part of the repository but not of the sources at hand; the definitions
    of this module follow its specification. A calendar day is its ordinal
    number, as [date.toordinal] gives it. *)

Module Core.

(** Modelled from the spec: the [SearchTask] of the data model; the two
    dates are inclusive, and a one-day task has [date_start = date_end]. *)
Record SearchTask := {
  keyword : pystr;
  date_start : Z;
  date_end : Z;
  region : option pystr;
  weibo_type : Z;
  contain_type : Z
}.

(** Modelled from the spec: the calendar days of a task, the half-open
    interval from [date_start] to the day after [date_end]. *)
Definition days (t : SearchTask) : gset Z :=
  list_to_set (seqZ (date_start t) (date_end t + 1 - date_start t)).

(** Modelled from the spec: a sub-task differs from its task in the dates
    only. *)
Definition with_dates (t : SearchTask) (first last : Z) : SearchTask :=
  {| keyword := keyword t; date_start := first; date_end := last;
     region := region t; weibo_type := weibo_type t;
     contain_type := contain_type t |}.

(** Modelled from the spec: [split(task)] of the Task Enumerator, which
    bisects the date interval at the midpoint day into two half-open
    sub-intervals; a one-day task cannot be split. *)
Definition split (t : SearchTask) : option (SearchTask * SearchTask) :=
  if date_start t <? date_end t then
    let mid := date_start t + (date_end t + 1 - date_start t) / 2 in
    Some (with_dates t (date_start t) (mid - 1), with_dates t mid (date_end t))
  else None.

(** Modelled from the spec: the [PostRecord] of the data model. *)
Record PostRecord := {
  content_id : pystr;
  author : pystr;
  timestamp : Z;
  text : pystr;
  media_links : list pystr;
  raw_type_flags : Z
}.

(** Modelled from the spec: the [SeenSet], the content ids emitted so far
    in the whole run. *)
Abbreviation SeenSet := (gset pystr).

(** Modelled from the spec: [dedup(candidate, seen)] of the Extraction and
    Dedup Engine; the answer and the set afterwards. *)
Definition dedup (candidate : PostRecord) (seen : SeenSet) : bool * SeenSet :=
  if bool_decide (content_id candidate ∈ seen) then (false, seen)
  else (true, {[content_id candidate]} ∪ seen).

(** Modelled from the spec: the [PageCursor] of the data model. *)
Record PageCursor := {
  task_index : Z;
  page_number : Z;
  results_seen_on_task : Z
}.

(** Modelled from the spec: the [RunLedger] of the data model. *)
Record RunLedger := {
  queue : list SearchTask;
  cursor : PageCursor;
  emitted_count : Z;
  seen_ids : SeenSet
}.

(** Modelled from the spec: the ledger of a fresh run over a queue. *)
Definition fresh (q : list SearchTask) : RunLedger :=
  {| queue := q;
     cursor := {| task_index := 0; page_number := 1; results_seen_on_task := 0 |};
     emitted_count := 0;
     seen_ids := ∅ |}.

(** Modelled from the spec: the global stop condition, checked against
    the configured result limit; 0 means unlimited. *)
Definition limit_reached (limit_result : Z) (l : RunLedger) : bool :=
  (0 <? limit_result) && (limit_result <=? emitted_count l).

(** Modelled from the spec: the ledger after one accepted record, with
    the set of seen ids as [dedup] returned it. *)
Definition accept (seen : SeenSet) (l : RunLedger) : RunLedger :=
  {| queue := queue l;
     cursor := {| task_index := task_index (cursor l);
                  page_number := page_number (cursor l);
                  results_seen_on_task := results_seen_on_task (cursor l) + 1 |};
     emitted_count := emitted_count l + 1;
     seen_ids := seen |}.

(** Modelled from the spec: the records of one page go through [dedup] in
    order; after every accepted record the Driver checks the limit and
    ends the run when it is reached. The result is the emitted records,
    the ledger, and whether the run was ended. *)
Fixpoint emit_page (limit_result : Z) (records : list PostRecord) (l : RunLedger)
  : list PostRecord * RunLedger * bool :=
  match records with
  | [] => ([], l, false)
  | r :: rest =>
      match dedup r (seen_ids l) with
      | (false, _) => emit_page limit_result rest l
      | (true, seen) =>
          let l := accept seen l in
          if limit_reached limit_result l then ([r], l, true)
          else
            let '(out, l, stopped) := emit_page limit_result rest l in
            (r :: out, l, stopped)
      end
  end.

(** Modelled from the spec: the cursor moves to the next page of the
    task. *)
Definition next_page (l : RunLedger) : RunLedger :=
  {| queue := queue l;
     cursor := {| task_index := task_index (cursor l);
                  page_number := page_number (cursor l) + 1;
                  results_seen_on_task := results_seen_on_task (cursor l) |};
     emitted_count := emitted_count l;
     seen_ids := seen_ids l |}.

(** Modelled from the spec: the cursor moves to the first page of the
    next task of the queue. *)
Definition next_task (l : RunLedger) : RunLedger :=
  {| queue := queue l;
     cursor := {| task_index := task_index (cursor l) + 1;
                  page_number := 1;
                  results_seen_on_task := 0 |};
     emitted_count := emitted_count l;
     seen_ids := seen_ids l |}.

(** Modelled from the spec: the pages of one task, walked in order. *)
Fixpoint run_task (limit_result : Z) (pages : list (list PostRecord)) (l : RunLedger)
  : list PostRecord * RunLedger * bool :=
  match pages with
  | [] => ([], l, false)
  | page :: rest =>
      let '(out, l, stopped) := emit_page limit_result page l in
      if stopped then (out, l, true)
      else
        let '(out', l, stopped) := run_task limit_result rest (next_page l) in
        (out ++ out', l, stopped)
  end.

(** Modelled from the spec: the tasks of the queue, run one after the
    other; each task comes with the pages the endpoint returns for it.
    Sub-tasks that a split produced are tasks of the queue like any
    other. *)
Fixpoint run_tasks (limit_result : Z) (tasks : list (list (list PostRecord)))
    (l : RunLedger) : list PostRecord * RunLedger * bool :=
  match tasks with
  | [] => ([], l, false)
  | pages :: rest =>
      let '(out, l, stopped) := run_task limit_result pages l in
      if stopped then (out, l, true)
      else
        let '(out', l, stopped) := run_tasks limit_result rest (next_task l) in
        (out ++ out', l, stopped)
  end.

(** Modelled from the spec: the content ids of a sequence of records. *)
Definition ids (records : list PostRecord) : list pystr :=
  content_id <$> records.

End Core.

(** ** Vocabulary of the statements *)

Definition is_print (ev : event) : bool :=
  match ev with EPrint _ => true | _ => false end.

Definition is_makedirs (ev : event) : bool :=
  match ev with EMakedirs _ => true | _ => false end.

(** The calls into the crawl engine. *)
Definition is_engine_event (ev : event) : bool :=
  match ev with
  | ECrawlerProcess _ | ECrawl _ | EStart => true
  | _ => false
  end.

(** Everything that comes after argument validation: loading the project
    settings and the engine. *)
Definition past_validation (ev : event) : bool :=
  match ev with
  | EGetProjectSettings => true
  | _ => is_engine_event ev
  end.

(** The lines that print the [errors] list, lines 138-139. *)
Definition error_lines (errors : list arg_error) : list event :=
  (fun e => EPrint (LError e)) <$> errors.

Definition prints_only (t : list event) : Prop :=
  Forall (fun ev => is_print ev = true) t.

(** [m] returns a value that satisfies [Q] and only prints. *)
Definition returns {A} (m : M A) (Q : A -> Prop) : Prop :=
  exists t a, m = (t, Ret a) /\ prints_only t /\ Q a.

(** [s'] agrees with [s] on every key outside [keys]. *)
Definition frame (keys : list string) (s s' : settings) : Prop :=
  forall k, k ∉ keys -> s' !! k = s !! k.

(** The keys a call of [update_settings_from_args] may write, when [test]
    tells which string options count. *)
Definition keys_for (test : option pystr -> bool) (args : Args) : list string :=
  (if test (keywords args) || test (keyword_file args) then ["KEYWORD_LIST"] else [])
  ++ (if test (start_date args) then ["START_DATE"] else [])
  ++ (if test (end_date args) then ["END_DATE"] else [])
  ++ (if bool_decide (is_Some (weibo_type args)) then ["WEIBO_TYPE"] else [])
  ++ (if bool_decide (is_Some (contain_type args)) then ["CONTAIN_TYPE"] else [])
  ++ (if test (region args) then ["REGION"] else [])
  ++ (if bool_decide (is_Some (limit args)) then ["LIMIT_RESULT"] else [])
  ++ (if bool_decide (is_Some (delay args)) then ["DOWNLOAD_DELAY"] else [])
  ++ (if test (output_dir args) then ["IMAGES_STORE"; "FILES_STORE"] else [])
  ++ ["LOG_LEVEL"].

(** The flag was on the command line, whatever its text. *)
Definition present (a : option pystr) : bool :=
  match a with Some _ => true | None => false end.

(** The keys of the options that were supplied, and [LOG_LEVEL]. *)
Definition supplied_keys (args : Args) : list string := keys_for present args.

(** The keys the code writes: a string option counts when it is not empty. *)
Definition written_keys (args : Args) : list string := keys_for given args.

(** The comma-separated tokens of [s], in the words of the specification:
    split at the commas, strip each token, drop the empty ones. *)
Definition tokens (s : pystr) : list pystr :=
  List.filter Str.truthy (map Str.strip (Str.split comma s)).

(** [m] only prints, and ends normally or with a TypeError. *)
Definition prints_or_TypeError (m : M unit) : Prop :=
  exists t r, m = (t, r) /\ prints_only t
              /\ (r = Ret tt \/ r = Raise (Exception TypeError)).

(** A list of strings, as [', '.join] needs it. *)
Definition is_str_list (v : pyval) : bool :=
  match v with
  | VList items => bool_decide (is_Some (str_items items))
  | _ => false
  end.

Definition is_list (v : pyval) : bool :=
  match v with VList _ => true | _ => false end.

(** The configuration contract on the settings that [print_config_summary]
    reads: the keyword list is a file name, a list of strings or a false
    value; the two type filters are not lists; the region, when it is a
    list, is a list of strings. *)
Definition well_typed (s : settings) : bool :=
  (let v := Settings.get "KEYWORD_LIST" (VList []) s in
   match v with
   | VStr _ => true
   | VList _ => is_str_list v
   | _ => negb (truthy v)
   end)
  && negb (is_list (Settings.get "WEIBO_TYPE" (VInt 0) s))
  && negb (is_list (Settings.get "CONTAIN_TYPE" (VInt 0) s))
  && (let r := Settings.get "REGION" (VList [VStr [20840; 37096]%N]) s in
      negb (is_list r) || is_str_list r).

(** A character that a [--keywords] string of separators only is made of. *)
Definition is_separator (c : N) : bool := (c =? comma)%N || Str.isspace c.

(** ** Vocabulary of the statements on the crawl engine *)

(** What a stretch of the run that starts at ledger [l], emits [out] and
    ends at ledger [l'] has to satisfy: no id twice, no id that was seen
    before, and a ledger that has counted and recorded exactly [out]. *)
Definition emits_once (l : Core.RunLedger) (out : list Core.PostRecord)
    (l' : Core.RunLedger) : Prop :=
  NoDup (Core.ids out)
  /\ (forall id, id ∈ Core.ids out -> id ∉ Core.seen_ids l)
  /\ Core.seen_ids l' = Core.seen_ids l ∪ list_to_set (Core.ids out)
  /\ Core.emitted_count l' = Core.emitted_count l + Z.of_nat (length out).

(** The same stretch run without a limit ([res0]) and with the limit [n]
    ([resn]), both from ledger [l]: the limited run emits the first
    [n - emitted_count l] records of the unlimited one, stops exactly when
    there are that many, and is in the same state when it has not
    stopped. *)
Definition limited_prefix (n : Z) (l : Core.RunLedger)
    (res0 resn : list Core.PostRecord * Core.RunLedger * bool) : Prop :=
  let '(out0, l0, _) := res0 in
  let '(outn, ln, stoppedn) := resn in
  outn = take (Z.to_nat (n - Core.emitted_count l)) out0
  /\ (if stoppedn
      then n - Core.emitted_count l <= Z.of_nat (length out0)
           /\ Core.emitted_count ln = n
      else Z.of_nat (length out0) < n - Core.emitted_count l /\ ln = l0).

(** Two ledgers at the same point of the count and of the seen ids. *)
Definition same_progress (l l' : Core.RunLedger) : Prop :=
  Core.emitted_count l' = Core.emitted_count l
  /\ Core.seen_ids l' = Core.seen_ids l.

(** All the candidate records of a run, in the order the Driver meets
    them: task after task, page after page. *)
Definition candidates (tasks : list (list (list Core.PostRecord)))
  : list Core.PostRecord :=
  concat (map (fun pages => concat pages) tasks).

(** The run of [main] when [parse_arguments] returns [args]: line 249,
    then lines 255-291. *)
Definition main_given (w : World) (args : Args) : M unit :=
  print LStarting;;
  validate_arguments w args;;
  try_except (main_body w args) main_handler.

(** The world [w] with a command line that parses to [args]. *)
Definition on_args (w : World) (args : Args) : World :=
  {| parse_args := Parsed args;
     unicode_decimal := unicode_decimal w;
     isfile := isfile w;
     isdir := isdir w;
     makedirs := makedirs w;
     project_settings := project_settings w;
     engine_create := engine_create w;
     engine_crawl := engine_crawl w;
     engine_start := engine_start w |}.

(** ** Example inputs *)

(** No option on the command line. *)
Definition no_args : Args :=
  {| keywords := None; keyword_file := None; start_date := None;
     end_date := None; weibo_type := None; contain_type := None;
     region := None; limit := None; delay := None; output_dir := None;
     arg_log_level := ERROR |}.

Definition with_dates (first last : string) : Args :=
  {| keywords := None; keyword_file := None; start_date := Some (lit first);
     end_date := Some (lit last); weibo_type := None; contain_type := None;
     region := None; limit := None; delay := None; output_dir := None;
     arg_log_level := ERROR |}.

Definition with_keywords (kw : string) (rg : option pystr) : Args :=
  {| keywords := Some (lit kw); keyword_file := None; start_date := None;
     end_date := None; weibo_type := None; contain_type := None;
     region := rg; limit := Some 5; delay := None; output_dir := None;
     arg_log_level := ERROR |}.

(** Project settings with a keyword and a key the program never writes. *)
Definition example_settings : settings :=
  <["KEYWORD_LIST" := VList [VStr (lit "k")]]>
    (<["BOT_NAME" := VStr (lit "weibo")]> ∅).

(** A world where every path exists and the engine runs to its end. *)
Definition example_world : World :=
  {| parse_args := Parsed no_args;
     unicode_decimal := ascii_decimal;
     isfile := fun _ => true;
     isdir := fun _ => true;
     makedirs := fun _ => None;
     project_settings := Ret example_settings;
     engine_create := fun _ => None;
     engine_crawl := fun _ => None;
     engine_start := None |}.

(** The settings after [--keywords ", ,"], and after
    [--keywords "a, b,,c " --region "x , y" --limit 5]. *)
Definition blank_keywords_settings : settings :=
  <["LOG_LEVEL" := VStr (lit "ERROR")]>
    (<["LIMIT_RESULT" := VInt 5]>
       (<["KEYWORD_LIST" := VList []]> example_settings)).

Definition keywords_settings : settings :=
  <["LOG_LEVEL" := VStr (lit "ERROR")]>
    (<["LIMIT_RESULT" := VInt 5]>
       (<["REGION" := VList [VStr (lit "x"); VStr (lit "y")]]>
          (<["KEYWORD_LIST" := VList [VStr (lit "a"); VStr (lit "b"); VStr (lit "c")]]>
             example_settings))).

Definition post (id : string) : Core.PostRecord :=
  {| Core.content_id := lit id; Core.author := lit "u"; Core.timestamp := 0;
     Core.text := lit ""; Core.media_links := []; Core.raw_type_flags := 0 |}.

(** Two tasks, the first of two pages; the record [b] comes back on the
    second page and again under the second task. *)
Definition example_tasks : list (list (list Core.PostRecord)) :=
  [ [ [post "a"; post "b"]; [post "b"; post "c"] ];
    [ [post "b"; post "d"] ] ].

Definition example_task : Core.SearchTask :=
  {| Core.keyword := lit "k"; Core.date_start := 738000; Core.date_end := 738004;
     Core.region := None; Core.weibo_type := 1; Core.contain_type := 0 |}.

(** ** Vocabulary of further statements *)

(** The settings one block of [update_settings_from_args] writes. *)
Definition piece (c : bool) (name : string) (value : pyval) : settings :=
  if c then {[name := value]} else ∅.

Definition number_piece {A} (a : option A) (name : string) (value : A -> pyval)
  : settings :=
  match a with Some x => {[name := value x]} | None => ∅ end.

(** Everything a call of [update_settings_from_args] writes, as one map
    that depends on the arguments only; the later blocks come first. *)
Definition overrides (args : Args) : settings :=
  {["LOG_LEVEL" := VStr (log_level_name (arg_log_level args))]}
  ∪ ((piece (given (output_dir args)) "FILES_STORE" (VStr (text (output_dir args)))
      ∪ piece (given (output_dir args)) "IMAGES_STORE" (VStr (text (output_dir args))))
  ∪ ((number_piece (delay args) "DOWNLOAD_DELAY" VFloat
      ∪ number_piece (limit args) "LIMIT_RESULT" VInt)
  ∪ (piece (given (region args)) "REGION" (str_list (comma_list (text (region args))))
  ∪ ((number_piece (contain_type args) "CONTAIN_TYPE" VInt
      ∪ number_piece (weibo_type args) "WEIBO_TYPE" VInt)
  ∪ ((piece (given (end_date args)) "END_DATE" (VStr (text (end_date args)))
      ∪ piece (given (start_date args)) "START_DATE" (VStr (text (start_date args))))
  ∪ (if given (keywords args)
     then {["KEYWORD_LIST" := str_list (comma_list (text (keywords args)))]}
     else piece (given (keyword_file args)) "KEYWORD_LIST"
            (VStr (text (keyword_file args))))))))).

(** The date option is given and [strptime] accepts its text. *)
Definition parses (w : World) (a : option pystr) : bool :=
  match strptime (unicode_decimal w) (text a) with
  | Ret _ => true
  | Raise _ => false
  end.

(** Both dates are given and one of them does not parse: lines 120-121
    parse them again outside any [try]. *)
Definition dates_crash (w : World) (args : Args) : bool :=
  given (start_date args) && given (end_date args)
  && negb (parses w (start_date args) && parses w (end_date args)).

(** Both dates are given, both parse, and the start is the later one. *)
Definition order_bad (w : World) (args : Args) : bool :=
  given (start_date args) && given (end_date args)
  && match strptime (unicode_decimal w) (text (start_date args)),
           strptime (unicode_decimal w) (text (end_date args)) with
     | Ret a, Ret b => dt_gt a b
     | _, _ => false
     end.

(** The output directory is given and is not there yet. *)
Definition wants_makedirs (w : World) (args : Args) : bool :=
  given (output_dir args) && negb (isdir w (text (output_dir args))).

(** The [errors] list that [validate_arguments] builds when the dates do
    not crash it, in the order of the checks. *)
Definition expected_errors (w : World) (args : Args) : list arg_error :=
  (if given (start_date args) && negb (parses w (start_date args))
   then [ErrStartFormat (text (start_date args))] else [])
  ++ (if given (end_date args) && negb (parses w (end_date args))
      then [ErrEndFormat (text (end_date args))] else [])
  ++ (if order_bad w args then [ErrDateOrder] else [])
  ++ (if given (keyword_file args) && negb (isfile w (text (keyword_file args)))
      then [ErrKeywordFile (text (keyword_file args))] else [])
  ++ (if wants_makedirs w args
      then match makedirs w (text (output_dir args)) with
           | Some e => [ErrOutputDir (text (output_dir args)) e]
           | None => []
           end
      else []).

(** [m] ends with a TypeError after printing at most. *)
Definition fails_TypeError (m : M unit) : Prop :=
  exists t, m = (t, Raise (Exception TypeError)) /\ prints_only t.

(** The exit status that the two [except] clauses of [main] give an
    exception raised in the body of the [try]. *)
Definition handled_status (e : exn) : Z :=
  match e with
  | KeyboardInterrupt => 0
  | Exception _ => 1
  | SystemExit code => code
  end.

(** The line the handler prints for an exception, if any. *)
Definition handled_line (e : exn) : list event :=
  match e with
  | KeyboardInterrupt => [EPrint LInterrupted]
  | Exception cls => [EPrint (LRuntimeError cls)]
  | SystemExit _ => []
  end.

(** The three engine calls of lines 280-282 on the settings [s]. *)
Definition crawl_calls (s : settings) : list event :=
  [ECrawlerProcess s; ECrawl "search"; EStart].

(** An empty string in a string option, turned into an absent option. *)
Definition absent_if_empty (a : option pystr) : option pystr :=
  match a with
  | Some [] => None
  | _ => a
  end.

Definition normalize (args : Args) : Args :=
  {| keywords := absent_if_empty (keywords args);
     keyword_file := absent_if_empty (keyword_file args);
     start_date := absent_if_empty (start_date args);
     end_date := absent_if_empty (end_date args);
     weibo_type := weibo_type args;
     contain_type := contain_type args;
     region := absent_if_empty (region args);
     limit := limit args;
     delay := delay args;
     output_dir := absent_if_empty (output_dir args);
     arg_log_level := arg_log_level args |}.

(** The run of [main] on the namespace [args] case by case, as one
    expression: the crash of the dates, the failed checks, the failure to
    load the settings, the summary that raises, the missing keywords, and
    the crawl with its outcome. *)
Definition main_closed (w : World) (args : Args) : M unit :=
  if dates_crash w args then ([EPrint LStarting], Raise (Exception ValueError))
  else
    let made := if wants_makedirs w args
                then [EMakedirs (text (output_dir args))] else [] in
    match expected_errors w args with
    | _ :: _ =>
        (EPrint LStarting :: made
           ++ EPrint LValidationFailed :: error_lines (expected_errors w args),
         Raise (SystemExit 1))
    | [] =>
        match project_settings w with
        | Raise e =>
            (EPrint LStarting :: made ++ [EGetProjectSettings] ++ handled_line e,
             Raise (SystemExit (handled_status e)))
        | Ret s0 =>
            let s1 := overrides args ∪ s0 in
            let before := EPrint LStarting :: made
                            ++ EGetProjectSettings
                            :: trace (update_settings_from_args s0 args)
                            ++ trace (print_config_summary s1) in
            if negb (well_typed s1) then
              (before ++ [EPrint (LRuntimeError TypeError)], Raise (SystemExit 1))
            else if negb (truthy (Settings.get "KEYWORD_LIST" VNone s1)) then
              (before ++ [EPrint LNoKeywords; EPrint LNoKeywordsHint;
                          EPrint LNoKeywordsExample],
               Raise (SystemExit 1))
            else
              match outcome (run_crawl w s1) with
              | Ret _ =>
                  (before ++ [EPrint LReady; EPrint LStopHint]
                     ++ trace (run_crawl w s1) ++ [EPrint LFinished],
                   Ret tt)
              | Raise e =>
                  (before ++ [EPrint LReady; EPrint LStopHint]
                     ++ trace (run_crawl w s1) ++ handled_line e,
                   Raise (SystemExit (handled_status e)))
              end
        end
    end.

(** The checks that come before the crawl all pass, and [s] is the
    settings object the crawl gets. *)
Definition ready (w : World) (args : Args) (s : settings) : Prop :=
  outcome (validate_arguments w args) = Ret tt
  /\ exists s0, project_settings w = Ret s0
                /\ s = overrides args ∪ s0
                /\ well_typed s = true
                /\ truthy (Settings.get "KEYWORD_LIST" VNone s) = true.

(** The engine calls of a run of [main] on the namespace [args], case by
    case. *)
Definition engine_events (w : World) (args : Args) : list event :=
  if dates_crash w args then []
  else
    match expected_errors w args, project_settings w with
    | [], Ret s0 =>
        let s1 := overrides args ∪ s0 in
        if well_typed s1 && truthy (Settings.get "KEYWORD_LIST" VNone s1)
        then trace (run_crawl w s1)
        else []
    | _, _ => []
    end.


(** [sep.join(fields)] for a separator of any length. *)
Fixpoint join_with (sep : pystr) (fields : list pystr) : pystr :=
  match fields with
  | [] => []
  | [f] => f
  | f :: fs => f ++ sep ++ join_with sep fs
  end.

(** Line 215: [', '.join(keyword_list) if keyword_list else '未设置'], the
    keywords as the summary prints them. *)
Definition summary_keyword_text (l : list pystr) : pystr :=
  match l with
  | [] => unset_text
  | _ :: _ => join_with [comma; 32%N] l
  end.

(** A keyword that the comprehension of line 148 leaves as it is: not
    empty, without a comma, without whitespace at either end. *)
Definition clean (t : pystr) : Prop :=
  t <> [] /\ (comma ∉ t)
  /\ (forall c, head t = Some c -> Str.isspace c = false)
  /\ (forall c, last t = Some c -> Str.isspace c = false).

(** The character of a decimal digit, and a number below 100 written with
    two of them. *)
Definition digit_char (v : N) : N := (48 + v)%N.

Definition two_digits (n : N) : pystr :=
  [digit_char (n / 10); digit_char (n mod 10)].

(** The text YYYY-MM-DD, from the four digits of the year, the month and
    the day. *)
Definition iso_text (y1 y2 y3 y4 m d : N) : pystr :=
  [digit_char y1; digit_char y2; digit_char y3; digit_char y4]
    ++ hyphen :: two_digits m ++ hyphen :: two_digits d.

Definition year_of (y1 y2 y3 y4 : N) : Z :=
  Z.of_N (1000 * y1 + 100 * y2 + 10 * y3 + y4).

(** The text Y-M-D with a month and a day of one digit each. *)
Definition short_text (y1 y2 y3 y4 m d : N) : pystr :=
  [digit_char y1; digit_char y2; digit_char y3; digit_char y4;
   hyphen; digit_char m; hyphen; digit_char d].

(** The Unicode table gives the ten ASCII digits their values. *)
Definition knows_ascii_digits (decimal : N -> option N) : Prop :=
  forall v, (v < 10)%N -> decimal (digit_char v) = Some v.

(** The texts a pattern matches as a whole, whatever the matcher tries
    first. *)
Fixpoint lang (decimal : N -> option N) (r : Re.regex) (s : pystr) : Prop :=
  match r with
  | Re.Chr x => s = [x]
  | Re.Range lo hi => exists y, s = [y] /\ (lo <= y <= hi)%N
  | Re.Digit => exists y, s = [y] /\ is_Some (decimal y)
  | Re.Seq a b => exists s1 s2, s = s1 ++ s2 /\ lang decimal a s1 /\ lang decimal b s2
  | Re.Alt a b => lang decimal a s \/ lang decimal b s
  | Re.Group _ a => lang decimal a s
  end.

(** ** Further example inputs *)

(** A world where Ctrl+C arrives while the engine runs. *)
Definition interrupted_world : World :=
  {| parse_args := Parsed no_args;
     unicode_decimal := ascii_decimal;
     isfile := fun _ => true;
     isdir := fun _ => true;
     makedirs := fun _ => None;
     project_settings := Ret example_settings;
     engine_create := fun _ => None;
     engine_crawl := fun _ => None;
     engine_start := Some KeyboardInterrupt |}.

(** A world where the project settings do not load. *)
Definition no_settings_world : World :=
  {| parse_args := Parsed no_args;
     unicode_decimal := ascii_decimal;
     isfile := fun _ => true;
     isdir := fun _ => true;
     makedirs := fun _ => None;
     project_settings := Raise (Exception OtherException);
     engine_create := fun _ => None;
     engine_crawl := fun _ => None;
     engine_start := None |}.

(** Project settings whose [WEIBO_TYPE] is a list, and a world that loads
    them. *)
Definition list_type_settings : settings :=
  <["WEIBO_TYPE" := VList []]> example_settings.

Definition list_type_world : World :=
  {| parse_args := Parsed no_args;
     unicode_decimal := ascii_decimal;
     isfile := fun _ => true;
     isdir := fun _ => true;
     makedirs := fun _ => None;
     project_settings := Ret list_type_settings;
     engine_create := fun _ => None;
     engine_crawl := fun _ => None;
     engine_start := None |}.

(** A world where argparse refuses the command line, and one where it is
    asked for help. *)
Definition rejected_world : World :=
  {| parse_args := Rejected;
     unicode_decimal := ascii_decimal;
     isfile := fun _ => true;
     isdir := fun _ => true;
     makedirs := fun _ => None;
     project_settings := Ret example_settings;
     engine_create := fun _ => None;
     engine_crawl := fun _ => None;
     engine_start := None |}.

Definition help_world : World :=
  {| parse_args := Help;
     unicode_decimal := ascii_decimal;
     isfile := fun _ => true;
     isdir := fun _ => true;
     makedirs := fun _ => None;
     project_settings := Ret example_settings;
     engine_create := fun _ => None;
     engine_crawl := fun _ => None;
     engine_start := None |}.

(** * Properties *)

(** ** The monad *)

Lemma bind_Ret {A B} (m : M A) (f : A -> M B) t a :
  m = (t, Ret a) -> m ≫= f = (t ++ trace (f a), outcome (f a)).
Proof.
  intros ->. unfold mbind, M_bind, bind, trace, outcome.
  destruct (f a) as [t' r]. reflexivity.
Qed.

Lemma bind_Raise {A B} (m : M A) (f : A -> M B) t e :
  m = (t, Raise e) -> m ≫= f = (t, Raise e).
Proof. intros ->. reflexivity. Qed.

Lemma M_eta {A} (m : M A) : m = (trace m, outcome m).
Proof. destruct m; reflexivity. Qed.

(** ** Dates *)

Lemma strptime_empty dec : strptime dec [] = Raise (Exception ValueError).
Proof. reflexivity. Qed.

Lemma strptime_only_ValueError dec s e :
  strptime dec s = Raise e -> e = Exception ValueError.
Proof.
  unfold strptime. intros H.
  repeat match type of H with
         | context [match ?x with _ => _ end] => destruct x
         end; congruence.
Qed.

Lemma strptime_Ret_truthy dec s d : strptime dec s = Ret d -> Str.truthy s = true.
Proof. destruct s; [rewrite strptime_empty; discriminate | reflexivity]. Qed.

Lemma validate_date_Ret dec s d :
  strptime dec s = Ret d -> validate_date dec s = Ret true.
Proof. unfold validate_date. intros ->. reflexivity. Qed.

Lemma dt_gt_irrefl d : dt_gt d d = false.
Proof. unfold dt_gt. rewrite !Z.ltb_irrefl, !Z.eqb_refl. reflexivity. Qed.

(** C7: [validate_date] answers [True] exactly when [strptime] accepts the
    string under ['%Y-%m-%d'], [False] exactly when [strptime] fails (which
    it only does with ValueError), and it never raises. *)
Theorem validate_date_iff_parses (dec : N -> option N) (s : pystr) :
  (validate_date dec s = Ret true <-> exists d, strptime dec s = Ret d)
  /\ (validate_date dec s = Ret false <-> forall d, strptime dec s <> Ret d)
  /\ (forall e, validate_date dec s <> Raise e).
Proof.
  unfold validate_date.
  destruct (strptime dec s) as [d | e] eqn:E.
  - split; [|split].
    + split; eauto.
    + split; [discriminate | intros H; exfalso; exact (H d eq_refl)].
    + discriminate.
  - apply strptime_only_ValueError in E as ->.
    split; [|split].
    + split; [discriminate | intros [d Hd]; discriminate].
    + split; [discriminate | reflexivity].
    + discriminate.
Qed.

(** ** Argument validation *)

Lemma check_keyword_file_Ret w args errors :
  exists tail, check_keyword_file w args errors = ([], Ret (errors ++ tail))
               /\ (ErrDateOrder ∉ tail).
Proof.
  unfold check_keyword_file.
  destruct (given (keyword_file args) && negb (isfile w (text (keyword_file args)))).
  - eexists [_]. split; [reflexivity|]. 
    intros H. apply list_elem_of_singleton in H. discriminate.
  - exists []. rewrite app_nil_r. split; [reflexivity | apply not_elem_of_nil].
Qed.

Lemma check_output_dir_Ret w args errors :
  exists t tail, check_output_dir w args errors = (t, Ret (errors ++ tail))
                 /\ (ErrDateOrder ∉ tail) /\ Forall (fun ev => is_makedirs ev = true) t.
Proof.
  unfold check_output_dir.
  destruct (given (output_dir args) && negb (isdir w (text (output_dir args)))).
  - destruct (makedirs w (text (output_dir args))) as [e|].
    + eexists [_], [_]. split; [reflexivity|]. split.
      * intros H. apply list_elem_of_singleton in H. discriminate.
      * repeat constructor.
    + eexists [_], []. rewrite app_nil_r. split; [reflexivity|]. split.
      * apply not_elem_of_nil.
      * repeat constructor.
  - exists [], []. rewrite app_nil_r. split; [reflexivity|]. split.
    + apply not_elem_of_nil.
    + constructor.
Qed.

(** With two dates that parse, the checks return; the ordering error is in
    the list exactly when the start is later than the end. *)
Lemma collect_errors_parsed_dates w args s e d1 d2 :
  start_date args = Some s -> end_date args = Some e ->
  strptime (unicode_decimal w) s = Ret d1 ->
  strptime (unicode_decimal w) e = Ret d2 ->
  exists t tail,
    collect_errors w args
    = (t, Ret ((if dt_gt d1 d2 then [ErrDateOrder] else []) ++ tail))
    /\ (ErrDateOrder ∉ tail)
    /\ Forall (fun ev => is_makedirs ev = true) t.
Proof.
  intros Hs He H1 H2.
  destruct (check_keyword_file_Ret w args (if dt_gt d1 d2 then [ErrDateOrder] else []))
    as (tail1 & Hk & Hn1).
  destruct (check_output_dir_Ret w args
              ((if dt_gt d1 d2 then [ErrDateOrder] else []) ++ tail1))
    as (t & tail2 & Ho & Hn2 & Ht).
  exists t, (tail1 ++ tail2). split; [|split].
  - unfold collect_errors, check_start_format, check_end_format, check_date_order.
    rewrite Hs, He. simpl text. unfold given.
    rewrite (strptime_Ret_truthy _ _ _ H1), (strptime_Ret_truthy _ _ _ H2).
    rewrite (validate_date_Ret _ _ _ H1), (validate_date_Ret _ _ _ H2), H1, H2.
    simpl. 
    destruct (dt_gt d1 d2); simpl in *; rewrite Hk; simpl; rewrite Ho; simpl;
      rewrite <- ?app_assoc; reflexivity.
  - intros H. apply elem_of_app in H as [H|H]; auto.
  - exact Ht.
Qed.

Lemma for_each_print_errors errors :
  for_each errors (fun e => print (LError e)) = (error_lines errors, Ret tt).
Proof.
  induction errors as [|e errors IH]; [reflexivity|].
  simpl. rewrite IH. reflexivity.
Qed.

Lemma report_errors_none : report_errors [] = ([], Ret tt).
Proof. reflexivity. Qed.

Lemma report_errors_some errors :
  errors <> [] ->
  report_errors errors
  = (EPrint LValidationFailed :: error_lines errors, Raise (SystemExit 1)).
Proof.
  destruct errors as [|e errors]; [congruence|]. intros _.
  unfold report_errors.
  unfold mbind, M_bind. rewrite for_each_print_errors. simpl.
  rewrite app_nil_r. reflexivity.
Qed.

Lemma validate_arguments_collected w args t errors :
  collect_errors w args = (t, Ret errors) ->
  validate_arguments w args
  = (t ++ trace (report_errors errors), outcome (report_errors errors)).
Proof. intros H. unfold validate_arguments. apply bind_Ret, H. Qed.

Lemma main_validation_raises w args t e :
  validate_arguments w args = (t, Raise e) ->
  main_given w args = (EPrint LStarting :: t, Raise e).
Proof.
  intros H. unfold main_given.
  unfold mbind at 1, M_bind at 1. simpl.
  rewrite (bind_Raise _ _ _ _ H). reflexivity.
Qed.

Lemma mret_bind {A B} (a : A) (k : A -> M B) : (mret a ≫= k) = k a.
Proof.
  unfold mbind, M_bind, bind, mret, M_ret, ret. destruct (k a). reflexivity.
Qed.

Lemma main_parsed w args :
  parse_args w = Parsed args -> main w = main_given w args.
Proof.
  intros H. unfold main, main_given, parse_arguments. rewrite H.
  rewrite mret_bind. reflexivity.
Qed.

Lemma main_help w :
  parse_args w = Help ->
  main w = ([EPrint LStarting; EPrint LHelp], Raise (SystemExit 0)).
Proof. intros H. unfold main, parse_arguments. rewrite H. reflexivity. Qed.

Lemma main_rejected w :
  parse_args w = Rejected -> main w = ([EPrint LStarting], Raise (SystemExit 2)).
Proof. intros H. unfold main, parse_arguments. rewrite H. reflexivity. Qed.

Lemma main_validation_passes w args t :
  validate_arguments w args = (t, Ret tt) ->
  main_given w args
  = (EPrint LStarting :: t ++ trace (try_except (main_body w args) main_handler),
     outcome (try_except (main_body w args) main_handler)).
Proof.
  intros H. unfold main_given.
  unfold mbind at 1, M_bind at 1. simpl.
  rewrite (bind_Ret _ _ _ _ H). reflexivity.
Qed.

Lemma makedirs_not_engine t :
  Forall (fun ev => is_makedirs ev = true) t ->
  Forall (fun ev => past_validation ev = false) t.
Proof. intros H. eapply Forall_impl; [exact H|]. intros [] E; simpl in *; congruence. Qed.

Lemma error_lines_not_engine errors :
  Forall (fun ev => past_validation ev = false) (error_lines errors).
Proof. unfold error_lines. apply Forall_fmap, Forall_true. reflexivity. Qed.

(** C8: when both dates parse, [validate_arguments] prints the ordering
    error exactly when the start is strictly later than the end; with equal
    dates it does not print it. *)
Theorem equal_dates_pass_order_check (w : World) (args : Args)
    (s e : pystr) (d1 d2 : datetime) :
  start_date args = Some s -> end_date args = Some e ->
  strptime (unicode_decimal w) s = Ret d1 ->
  strptime (unicode_decimal w) e = Ret d2 ->
  (EPrint (LError ErrDateOrder) ∈ trace (validate_arguments w args)
   <-> dt_gt d1 d2 = true)
  /\ (d1 = d2 -> EPrint (LError ErrDateOrder) ∉ trace (validate_arguments w args)).
Proof.
  intros Hs He H1 H2.
  destruct (collect_errors_parsed_dates w args s e d1 d2 Hs He H1 H2)
    as (t & tail & Hc & Hn & Ht).
  assert (Hiff : EPrint (LError ErrDateOrder) ∈ trace (validate_arguments w args)
                 <-> dt_gt d1 d2 = true).
  { rewrite (validate_arguments_collected _ _ _ _ Hc). cbn [trace fst].
    split.
    - intros H. destruct (dt_gt d1 d2); [reflexivity|]. exfalso.
      apply elem_of_app in H as [H|H].
      + eapply Forall_forall in Ht; [|exact H]. discriminate.
      + simpl in H. destruct tail as [|x tail]; [inversion H|].
        rewrite report_errors_some in H by discriminate. cbn [fst] in H.
        apply elem_of_cons in H as [H|H]; [discriminate|].
        apply list_elem_of_fmap in H as (x' & Hx & Hin).
        injection Hx as <-. contradiction.
    - intros ->. rewrite report_errors_some by discriminate.
      apply elem_of_app. right. cbn [fst]. apply elem_of_cons. right.
      apply list_elem_of_fmap. exists ErrDateOrder. split; [reflexivity|].
      apply elem_of_cons. left. reflexivity. }
  split; [exact Hiff|].
  intros <- H. apply Hiff in H. rewrite dt_gt_irrefl in H. discriminate.
Qed.

(** C1: two dates that parse with the start strictly later than the end
    make [main] print the validation errors and end with [sys.exit(1)];
    nothing of the settings loader or the crawl engine has run by then. *)
Theorem reversed_dates_are_fatal (w : World) (args : Args)
    (s e : pystr) (d1 d2 : datetime) :
  parse_args w = Parsed args ->
  start_date args = Some s -> end_date args = Some e ->
  strptime (unicode_decimal w) s = Ret d1 ->
  strptime (unicode_decimal w) e = Ret d2 ->
  dt_gt d1 d2 = true ->
  exists t errors,
    collect_errors w args = (t, Ret errors)
    /\ ErrDateOrder ∈ errors
    /\ main w
       = (EPrint LStarting :: t ++ EPrint LValidationFailed :: error_lines errors,
          Raise (SystemExit 1))
    /\ exit_status (outcome (main w)) = 1
    /\ Forall (fun ev => past_validation ev = false) (trace (main w)).
Proof.
  intros Hparse. rewrite (main_parsed w args Hparse).
  intros Hs He H1 H2 Hgt.
  destruct (collect_errors_parsed_dates w args s e d1 d2 Hs He H1 H2)
    as (t & tail & Hc & Hn & Ht).
  rewrite Hgt in Hc.
  exists t, ([ErrDateOrder] ++ tail).
  assert (Hm : main_given w args
               = (EPrint LStarting :: t ++ EPrint LValidationFailed
                    :: error_lines ([ErrDateOrder] ++ tail),
                  Raise (SystemExit 1))).
  { apply main_validation_raises.
    rewrite (validate_arguments_collected _ _ _ _ Hc).
    rewrite report_errors_some by discriminate. reflexivity. }
  split; [exact Hc|]. split; [apply elem_of_cons; left; reflexivity|].
  split; [exact Hm|]. rewrite Hm. split; [reflexivity|].
  cbn [trace fst]. constructor; [reflexivity|].
  apply Forall_app. split; [apply makedirs_not_engine, Ht|].
  constructor; [reflexivity | apply error_lines_not_engine].
Qed.

(** ** Computations that return *)

Lemma returns_ret {A} (a : A) (Q : A -> Prop) : Q a -> returns (mret a) Q.
Proof. intros H. exists [], a. split; [reflexivity|]. split; [constructor | exact H]. Qed.

Lemma returns_bind {A B} (m : M A) (f : A -> M B) (Q : A -> Prop) (R : B -> Prop) :
  returns m Q -> (forall a, Q a -> returns (f a) R) -> returns (m ≫= f) R.
Proof.
  intros (t & a & -> & Ht & Ha) Hf.
  destruct (Hf a Ha) as (t' & b & Hb & Ht' & HR).
  exists (t ++ t'), b. split; [|split; [apply Forall_app; split; assumption | exact HR]].
  unfold mbind, M_bind, bind. rewrite Hb. reflexivity.
Qed.

Lemma returns_print_then {A} (l : line) (a : A) (Q : A -> Prop) :
  Q a -> returns (print l;; mret a) Q.
Proof.
  intros H. exists [EPrint l], a. split; [reflexivity|].
  split; [repeat constructor | exact H].
Qed.

Lemma returns_weaken {A} (m : M A) (Q R : A -> Prop) :
  returns m Q -> (forall a, Q a -> R a) -> returns m R.
Proof. intros (t & a & E & Ht & Ha) H. exists t, a. auto. Qed.

(** ** The frame of [update_settings_from_args] *)

Lemma frame_refl keys s : frame keys s s.
Proof. intros k _. reflexivity. Qed.

Lemma frame_set k v s : frame [k] s (Settings.set k v s).
Proof.
  intros k' Hk. unfold Settings.set. apply lookup_insert_ne.
  intros ->. apply Hk, elem_of_cons. left. reflexivity.
Qed.

Lemma frame_trans keys1 keys2 s1 s2 s3 :
  frame keys1 s1 s2 -> frame keys2 s2 s3 -> frame (keys1 ++ keys2) s1 s3.
Proof.
  intros H1 H2 k Hk. rewrite H2, H1; [reflexivity| |];
    intros Hin; apply Hk, elem_of_app; auto.
Qed.

Lemma frame_weaken keys keys' s s' :
  (forall k, k ∈ keys -> k ∈ keys') -> frame keys s s' -> frame keys' s s'.
Proof. intros Hsub H k Hk. apply H. intros Hin. apply Hk, Hsub, Hin. Qed.

Lemma update_keywords_returns args s :
  returns (update_keywords args s) (fun s' =>
    frame (if given (keywords args) || given (keyword_file args)
           then ["KEYWORD_LIST"] else []) s s'
    /\ (given (keywords args) = true ->
        s' !! "KEYWORD_LIST" = Some (str_list (comma_list (text (keywords args)))))
    /\ (given (keywords args) = false -> given (keyword_file args) = false -> s' = s)).
Proof.
  unfold update_keywords.
  destruct (given (keywords args)); [|destruct (given (keyword_file args))]; simpl.
  - apply returns_print_then. split; [apply frame_set|]. split; [|discriminate].
    intros _. apply lookup_insert_eq.
  - apply returns_print_then. split; [apply frame_set|]. split; discriminate.
  - apply returns_ret. split; [apply frame_refl|]. split; [discriminate | reflexivity].
Qed.

Lemma update_dates_returns args s :
  returns (update_dates args s) (fun s' =>
    frame ((if given (start_date args) then ["START_DATE"] else [])
           ++ (if given (end_date args) then ["END_DATE"] else [])) s s').
Proof.
  unfold update_dates.
  eapply returns_bind with (Q := fun s1 =>
    frame (if given (start_date args) then ["START_DATE"] else []) s s1).
  - destruct (given (start_date args)).
    + apply returns_print_then, frame_set.
    + apply returns_ret, frame_refl.
  - intros s1 H1. destruct (given (end_date args)).
    + apply returns_print_then. eapply frame_trans; [exact H1 | apply frame_set].
    + apply returns_ret. eapply frame_trans; [exact H1 | apply frame_refl].
Qed.

Lemma update_types_returns args s :
  returns (update_types args s) (fun s' =>
    frame ((if bool_decide (is_Some (weibo_type args)) then ["WEIBO_TYPE"] else [])
           ++ (if bool_decide (is_Some (contain_type args)) then ["CONTAIN_TYPE"] else []))
      s s').
Proof.
  unfold update_types.
  eapply returns_bind with (Q := fun s1 =>
    frame (if bool_decide (is_Some (weibo_type args)) then ["WEIBO_TYPE"] else []) s s1).
  - destruct (weibo_type args).
    + apply returns_print_then, frame_set.
    + apply returns_ret, frame_refl.
  - intros s1 H1. destruct (contain_type args).
    + apply returns_print_then. eapply frame_trans; [exact H1 | apply frame_set].
    + apply returns_ret. eapply frame_trans; [exact H1 | apply frame_refl].
Qed.

Lemma update_region_returns args s :
  returns (update_region args s) (fun s' =>
    frame (if given (region args) then ["REGION"] else []) s s'
    /\ (given (region args) = true ->
        s' !! "REGION" = Some (str_list (comma_list (text (region args)))))).
Proof.
  unfold update_region. destruct (given (region args)).
  - apply returns_print_then. split; [apply frame_set|]. intros _. apply lookup_insert_eq.
  - apply returns_ret. split; [apply frame_refl | discriminate].
Qed.

Lemma update_limits_returns args s :
  returns (update_limits args s) (fun s' =>
    frame ((if bool_decide (is_Some (limit args)) then ["LIMIT_RESULT"] else [])
           ++ (if bool_decide (is_Some (delay args)) then ["DOWNLOAD_DELAY"] else []))
      s s').
Proof.
  unfold update_limits.
  eapply returns_bind with (Q := fun s1 =>
    frame (if bool_decide (is_Some (limit args)) then ["LIMIT_RESULT"] else []) s s1).
  - destruct (limit args).
    + apply returns_print_then, frame_set.
    + apply returns_ret, frame_refl.
  - intros s1 H1. destruct (delay args).
    + apply returns_print_then. eapply frame_trans; [exact H1 | apply frame_set].
    + apply returns_ret. eapply frame_trans; [exact H1 | apply frame_refl].
Qed.

Lemma update_output_dir_returns args s :
  returns (update_output_dir args s) (fun s' =>
    frame (if given (output_dir args) then ["IMAGES_STORE"; "FILES_STORE"] else []) s s').
Proof.
  unfold update_output_dir. destruct (given (output_dir args)).
  - apply returns_print_then.
    eapply (frame_trans ["IMAGES_STORE"] ["FILES_STORE"]); apply frame_set.
  - apply returns_ret, frame_refl.
Qed.

Lemma update_log_level_returns args s :
  returns (update_log_level args s) (fun s' =>
    frame ["LOG_LEVEL"] s s'
    /\ s' !! "LOG_LEVEL" = Some (VStr (log_level_name (arg_log_level args)))).
Proof.
  unfold update_log_level.
  destruct (arg_log_level args);
    first [apply returns_print_then | apply returns_ret];
    (split; [apply frame_set | apply lookup_insert_eq]).
Qed.

Ltac not_a_key H :=
  repeat (apply elem_of_app in H as [H|H]);
  try (match type of H with _ ∈ (if ?c then _ else _) => destruct c end);
  repeat (apply elem_of_cons in H as [H|H]; [discriminate H|]);
  apply elem_of_nil in H; exact H.

(** [update_settings_from_args] always returns; it leaves every key alone
    that it does not write, and it writes the three values below. *)
Lemma update_settings_returns args s :
  returns (update_settings_from_args s args) (fun s' =>
    frame (written_keys args) s s'
    /\ (given (keywords args) = true ->
        s' !! "KEYWORD_LIST" = Some (str_list (comma_list (text (keywords args)))))
    /\ (given (region args) = true ->
        s' !! "REGION" = Some (str_list (comma_list (text (region args)))))
    /\ s' !! "LOG_LEVEL" = Some (VStr (log_level_name (arg_log_level args)))).
Proof.
  unfold update_settings_from_args, written_keys, keys_for.
  eapply returns_bind; [apply update_keywords_returns|].
  intros s1 (F1 & K1 & _).
  eapply returns_bind; [apply update_dates_returns|]. intros s2 F2.
  eapply returns_bind; [apply update_types_returns|]. intros s3 F3.
  eapply returns_bind; [apply update_region_returns|]. intros s4 (F4 & R4).
  eapply returns_bind; [apply update_limits_returns|]. intros s5 F5.
  eapply returns_bind; [apply update_output_dir_returns|]. intros s6 F6.
  eapply returns_weaken; [apply update_log_level_returns|].
  intros s7 (F7 & L7).
  pose proof (frame_trans _ _ _ _ _ F5 (frame_trans _ _ _ _ _ F6 F7)) as F57.
  pose proof (frame_trans _ _ _ _ _ F2 (frame_trans _ _ _ _ _ F3
                (frame_trans _ _ _ _ _ F4 F57))) as F27.
  split; [|split; [|split]].
  - pose proof (frame_trans _ _ _ _ _ F1 F27) as F.
    rewrite <- !app_assoc in F. exact F.
  - intros G. rewrite F27; [exact (K1 G)|]. intros H. not_a_key H.
  - intros G. rewrite F57; [exact (R4 G)|]. intros H. not_a_key H.
  - exact L7.
Qed.

Lemma given_present a : given a = true -> present a = true.
Proof. destruct a; [reflexivity | discriminate]. Qed.

Lemma elem_of_if_mono (b1 b2 : bool) (l : list string) k :
  (b1 = true -> b2 = true) -> k ∈ (if b1 then l else []) -> k ∈ (if b2 then l else []).
Proof.
  intros H. destruct b1; [rewrite H by reflexivity; auto|].
  intros Hk. apply elem_of_nil in Hk. contradiction.
Qed.

Lemma elem_of_app_mono (l1 l1' l2 l2' : list string) k :
  (k ∈ l1 -> k ∈ l1') -> (k ∈ l2 -> k ∈ l2') -> k ∈ l1 ++ l2 -> k ∈ l1' ++ l2'.
Proof. rewrite !elem_of_app. tauto. Qed.

Lemma written_keys_supplied args k :
  k ∈ written_keys args -> k ∈ supplied_keys args.
Proof.
  unfold written_keys, supplied_keys, keys_for.
  repeat (apply elem_of_app_mono;
          [ apply elem_of_if_mono;
            first [ exact (fun H => H)
                  | apply given_present
                  | rewrite !orb_true_iff; intros [E|E]; [left|right];
                    apply given_present, E ]
          | ]).
  auto.
Qed.

(** C10: [update_settings_from_args] returns, and the settings it returns
    differ from the ones it was given at most at the keys of the supplied
    options and at [LOG_LEVEL], which always holds the log level. *)
Theorem update_settings_frame (args : Args) (s : settings) :
  exists t s',
    update_settings_from_args s args = (t, Ret s')
    /\ (forall k, k ∉ supplied_keys args -> s' !! k = s !! k)
    /\ (forall k,
          k ∉ ["KEYWORD_LIST"; "START_DATE"; "END_DATE"; "WEIBO_TYPE";
               "CONTAIN_TYPE"; "REGION"; "LIMIT_RESULT"; "DOWNLOAD_DELAY";
               "IMAGES_STORE"; "FILES_STORE"; "LOG_LEVEL"] ->
          s' !! k = s !! k)
    /\ s' !! "LOG_LEVEL" = Some (VStr (log_level_name (arg_log_level args))).
Proof.
  destruct (update_settings_returns args s) as (t & s' & E & _ & F & _ & _ & L).
  exists t, s'. split; [exact E|]. split; [|split; [|exact L]].
  - intros k Hk. apply F. intros Hin. apply Hk, written_keys_supplied, Hin.
  - intros k Hk. apply F. intros Hin. apply Hk.
    unfold written_keys, keys_for in Hin.
    repeat (apply elem_of_app in Hin as [Hin|Hin];
            [ match type of Hin with
              | _ ∈ (if ?c then _ else _) =>
                  destruct c; [|apply elem_of_nil in Hin; contradiction]
              end;
              repeat (apply elem_of_cons in Hin as [Hin|Hin];
                      [rewrite Hin; set_solver|]);
              apply elem_of_nil in Hin; contradiction
            | ]).
    apply elem_of_cons in Hin as [Hin|Hin];
      [|apply elem_of_nil in Hin; contradiction].
    rewrite Hin. repeat (apply elem_of_cons; first [left; reflexivity | right]).
Qed.

Lemma comma_list_tokens s : comma_list s = tokens s.
Proof.
  unfold comma_list, tokens.
  induction (Str.split comma s) as [|f fs IH]; [reflexivity|].
  simpl. destruct (Str.truthy (Str.strip f)); simpl; rewrite IH; reflexivity.
Qed.

(** C9: a non-empty [--keywords] string makes [KEYWORD_LIST] the list of its
    comma-separated tokens, stripped, without the empty ones and in their
    order; a non-empty [--region] string does the same to [REGION]. *)
Theorem keyword_and_region_lists (args : Args) (s : settings) :
  exists t s',
    update_settings_from_args s args = (t, Ret s')
    /\ (forall kw, keywords args = Some kw -> kw <> [] ->
          s' !! "KEYWORD_LIST" = Some (VList (VStr <$> tokens kw)))
    /\ (forall r, region args = Some r -> r <> [] ->
          s' !! "REGION" = Some (VList (VStr <$> tokens r))).
Proof.
  destruct (update_settings_returns args s) as (t & s' & E & _ & _ & K & R & _).
  exists t, s'. split; [exact E|]. split.
  - intros kw Hk Hne. rewrite Hk in K. rewrite <- comma_list_tokens.
    apply K. destruct kw; [congruence | reflexivity].
  - intros r Hr Hne. rewrite Hr in R. rewrite <- comma_list_tokens.
    apply R. destruct r; [congruence | reflexivity].
Qed.

(** ** Traces *)

Lemma trace_bind {A B} (P : event -> Prop) (m : M A) (f : A -> M B) :
  Forall P (trace m) -> (forall a, Forall P (trace (f a))) ->
  Forall P (trace (m ≫= f)).
Proof.
  intros Hm Hf. destruct m as [t [a|e]]; simpl in *; [|exact Hm].
  specialize (Hf a). unfold mbind, M_bind, bind. destruct (f a) as [t' r].
  simpl in *. apply Forall_app. split; assumption.
Qed.

Lemma trace_lift {A} (P : event -> Prop) (r : result A) : Forall P (trace (lift r)).
Proof. constructor. Qed.

Lemma trace_ret {A} (P : event -> Prop) (a : A) : Forall P (trace (mret a : M A)).
Proof. constructor. Qed.

(** Argument validation touches nothing but the output directory. *)
Lemma collect_errors_trace w args :
  Forall (fun ev => is_makedirs ev = true) (trace (collect_errors w args)).
Proof.
  unfold collect_errors.
  apply trace_bind.
  { unfold check_start_format. destruct (given (start_date args)); [|apply trace_ret].
    apply trace_bind; [apply trace_lift | intros; apply trace_ret]. }
  intros e1. apply trace_bind.
  { unfold check_end_format. destruct (given (end_date args)); [|apply trace_ret].
    apply trace_bind; [apply trace_lift | intros; apply trace_ret]. }
  intros e2. apply trace_bind.
  { unfold check_date_order.
    destruct (given (start_date args) && given (end_date args)); [|apply trace_ret].
    apply trace_bind; [apply trace_lift | intros].
    apply trace_bind; [apply trace_lift | intros; apply trace_ret]. }
  intros e3. apply trace_bind.
  { unfold check_keyword_file.
    destruct (given (keyword_file args) && negb (isfile w (text (keyword_file args))));
      apply trace_ret. }
  intros e4. unfold check_output_dir.
  destruct (given (output_dir args) && negb (isdir w (text (output_dir args))));
    [|apply trace_ret].
  apply trace_bind; [repeat constructor|]. intros _.
  destruct (makedirs w (text (output_dir args))); apply trace_ret.
Qed.

(** ** [print_config_summary] *)

Lemma pot_print l : prints_or_TypeError (print l).
Proof. exists [EPrint l], (Ret tt). repeat split; [repeat constructor | left; reflexivity]. Qed.

Lemma pot_raise : prints_or_TypeError (raise (Exception TypeError)).
Proof. exists [], (Raise (Exception TypeError)). repeat split; [constructor | right; reflexivity]. Qed.

Lemma pot_seq (m k : M unit) :
  prints_or_TypeError m -> prints_or_TypeError k -> prints_or_TypeError (m;; k).
Proof.
  intros (t & r & -> & Ht & [-> | ->]) (t' & r' & -> & Ht' & Hr').
  - exists (t ++ t'), r'. repeat split; [apply Forall_app; split; assumption | exact Hr'].
  - exists t, (Raise (Exception TypeError)). repeat split; [assumption | right; reflexivity].
Qed.

Lemma summary_keywords_pot s : prints_or_TypeError (summary_keywords s).
Proof.
  unfold summary_keywords.
  repeat match goal with
         | |- context [match ?x with _ => _ end] => destruct x
         end; first [apply pot_print | apply pot_raise].
Qed.

Lemma summary_lookup_pot key l : prints_or_TypeError (summary_lookup key l).
Proof. destruct key; first [apply pot_print | apply pot_raise]. Qed.

Lemma summary_region_pot s : prints_or_TypeError (summary_region s).
Proof.
  unfold summary_region.
  repeat match goal with
         | |- context [match ?x with _ => _ end] => destruct x
         end; first [apply pot_print | apply pot_raise].
Qed.

Lemma print_config_summary_pot s : prints_or_TypeError (print_config_summary s).
Proof.
  unfold print_config_summary.
  repeat first [ apply pot_print | apply summary_keywords_pot
               | apply summary_lookup_pot | apply summary_region_pot
               | apply pot_seq ].
Qed.

Lemma returns_print l : returns (print l) (fun _ => True).
Proof. exists [EPrint l], tt. repeat split. repeat constructor. Qed.

Lemma returns_seq {B} (m : M unit) (k : M B) (Q : B -> Prop) :
  returns m (fun _ => True) -> returns k Q -> returns (m;; k) Q.
Proof. intros Hm Hk. eapply returns_bind; [exact Hm | intros; exact Hk]. Qed.

Lemma is_str_list_items items :
  is_str_list (VList items) = true -> exists l, str_items items = Some l.
Proof. simpl. intros H. apply bool_decide_eq_true in H as [l Hl]. eauto. Qed.

(** Settings under the configuration contract are printed without error. *)
Lemma well_typed_summary s :
  well_typed s = true -> returns (print_config_summary s) (fun _ => True).
Proof.
  unfold well_typed. rewrite !andb_true_iff. intros [[[Hk Hw] Hc] Hr].
  unfold print_config_summary.
  repeat (apply returns_seq; [apply returns_print|]).
  apply returns_seq.
  { unfold summary_keywords.
    destruct (Settings.get "KEYWORD_LIST" (VList []) s) as [| | | | |items] eqn:E;
      try (rewrite (proj1 (negb_true_iff _) Hk)); try apply returns_print.
    destruct (truthy (VList items)); [|apply returns_print].
    destruct (is_str_list_items _ Hk) as [l ->]. apply returns_print. }
  apply returns_seq; [apply returns_print|].
  apply returns_seq.
  { destruct (Settings.get "WEIBO_TYPE" (VInt 0) s);
      first [discriminate Hw | apply returns_print]. }
  apply returns_seq.
  { destruct (Settings.get "CONTAIN_TYPE" (VInt 0) s);
      first [discriminate Hc | apply returns_print]. }
  apply returns_seq.
  { unfold summary_region.
    destruct (Settings.get "REGION" (VList [VStr [20840%N; 37096%N]]) s)
      as [| | | | |items] eqn:E; try apply returns_print.
    simpl in Hr. destruct (is_str_list_items items Hr) as [l ->].
    apply returns_print. }
  repeat (apply returns_seq; [apply returns_print|]).
  apply returns_print.
Qed.

(** ** [main] past validation *)

Lemma bind_pair_Ret {A B} (t : list event) (a : A) (f : A -> M B) :
  (t, Ret a) ≫= f = (t ++ trace (f a), outcome (f a)).
Proof. apply bind_Ret. reflexivity. Qed.

Lemma bind_pair_Raise {A B} (t : list event) (e : exn) (f : A -> M B) :
  ((t, Raise e) : M A) ≫= f = (t, Raise e).
Proof. reflexivity. Qed.

Lemma main_body_eq w args s0 t1 s1 t2 r2 :
  project_settings w = Ret s0 ->
  update_settings_from_args s0 args = (t1, Ret s1) ->
  print_config_summary s1 = (t2, r2) ->
  main_body w args
  = match r2 with
    | Raise e => (EGetProjectSettings :: t1 ++ t2, Raise e)
    | Ret _ =>
        let m := (require_keywords s1;; print LReady;; print LStopHint;;
                  run_crawl w s1;; print LFinished) in
        (EGetProjectSettings :: t1 ++ t2 ++ trace m, outcome m)
    end.
Proof.
  intros Hp Hu Hs. unfold main_body, emit, lift.
  rewrite Hp, bind_pair_Ret. cbv beta.
  rewrite bind_pair_Ret. cbv beta.
  rewrite Hu, bind_pair_Ret. cbv beta.
  rewrite Hs.
  destruct r2 as [[]|e].
  - rewrite bind_pair_Ret. reflexivity.
  - rewrite bind_pair_Raise. reflexivity.
Qed.

Lemma require_keywords_falsy s :
  truthy (Settings.get "KEYWORD_LIST" VNone s) = false ->
  require_keywords s
  = ([EPrint LNoKeywords; EPrint LNoKeywordsHint; EPrint LNoKeywordsExample],
     Raise (SystemExit 1)).
Proof. unfold require_keywords. intros ->. reflexivity. Qed.

Lemma require_keywords_truthy s :
  truthy (Settings.get "KEYWORD_LIST" VNone s) = true ->
  require_keywords s = ([], Ret tt).
Proof. unfold require_keywords. intros ->. reflexivity. Qed.

Lemma prints_not_engine t :
  prints_only t -> Forall (fun ev => is_engine_event ev = false) t.
Proof. intros H. eapply Forall_impl; [exact H|]. intros [] E; simpl in *; congruence. Qed.

Lemma makedirs_not_engine_call t :
  Forall (fun ev => is_makedirs ev = true) t ->
  Forall (fun ev => is_engine_event ev = false) t.
Proof. intros H. eapply Forall_impl; [exact H|]. intros [] E; simpl in *; congruence. Qed.

Lemma collect_errors_not_engine w args t r :
  collect_errors w args = (t, r) ->
  Forall (fun ev => is_engine_event ev = false) t.
Proof.
  intros H. apply makedirs_not_engine_call.
  pose proof (collect_errors_trace w args) as Ht. rewrite H in Ht. exact Ht.
Qed.

(** ** Splitting and stripping *)

Lemma split_fields (P : N -> Prop) sep s :
  Forall P s -> Forall (Forall (fun c => P c /\ c <> sep)) (Str.split sep s).
Proof.
  induction 1 as [|c t Hc Ht IH]; simpl.
  - repeat constructor.
  - destruct (N.eqb_spec c sep) as [->|Hne].
    + constructor; [constructor | exact IH].
    + destruct (Str.split sep t) as [|f fs].
      * repeat constructor; assumption.
      * inversion IH; subst. constructor; [|assumption].
        constructor; [split; assumption | assumption].
Qed.

Lemma lstrip_all_space s :
  Forall (fun c => Str.isspace c = true) s -> Str.lstrip s = [].
Proof. induction 1 as [|c t Hc _ IH]; simpl; [reflexivity|]. rewrite Hc. exact IH. Qed.

Lemma strip_all_space s :
  Forall (fun c => Str.isspace c = true) s -> Str.strip s = [].
Proof. intros H. unfold Str.strip. rewrite (lstrip_all_space s H). reflexivity. Qed.

(** A string of commas and whitespace only has no token. *)
Lemma separators_only_no_token kw :
  Forall (fun c => is_separator c = true) kw -> comma_list kw = [].
Proof.
  intros H. unfold comma_list.
  pose proof (split_fields _ comma kw H) as Hf.
  induction Hf as [|f fs Hf _ IH]; [reflexivity|].
  simpl. rewrite strip_all_space; [exact IH|].
  eapply Forall_impl; [exact Hf|]. intros c [Hs Hc]. unfold is_separator in Hs.
  apply orb_true_iff in Hs as [Hs|Hs]; [|exact Hs].
  apply N.eqb_eq in Hs. contradiction.
Qed.

(** C2: when validation passes, the project settings load and, after the
    arguments are applied, [KEYWORD_LIST] is unset or has a false value (as
    it has when [--keywords] is made of commas and whitespace only), [main]
    ends with exit status 1 and has made no call into the crawl engine. *)
Theorem empty_keyword_list_aborts (w : World) (args : Args)
    (t0 t1 : list event) (s0 s1 : settings) :
  parse_args w = Parsed args ->
  collect_errors w args = (t0, Ret []) ->
  project_settings w = Ret s0 ->
  update_settings_from_args s0 args = (t1, Ret s1) ->
  truthy (Settings.get "KEYWORD_LIST" VNone s1) = false
  \/ (exists kw, keywords args = Some kw /\ kw <> []
                 /\ Forall (fun c => is_separator c = true) kw) ->
  outcome (main w) = Raise (SystemExit 1)
  /\ exit_status (outcome (main w)) = 1
  /\ Forall (fun ev => is_engine_event ev = false) (trace (main w)).
Proof.
  intros Hparse. rewrite (main_parsed w args Hparse).
  intros Hc Hp Hu Hk.
  assert (Hfalse : truthy (Settings.get "KEYWORD_LIST" VNone s1) = false).
  { destruct Hk as [Hk | (kw & Hkw & Hne & Hsep)]; [exact Hk|].
    destruct (update_settings_returns args s0) as (t & s' & E & _ & _ & K & _).
    rewrite Hu in E. injection E as _ <-.
    unfold Settings.get. rewrite K.
    - rewrite Hkw. simpl text. rewrite (separators_only_no_token kw Hsep). reflexivity.
    - rewrite Hkw. destruct kw; [congruence | reflexivity]. }
  clear Hk.
  pose proof (validate_arguments_collected _ _ _ _ Hc) as Hv.
  rewrite report_errors_none in Hv. cbn [trace outcome fst snd] in Hv.
  rewrite app_nil_r in Hv.
  pose proof (main_validation_passes _ _ _ Hv) as Hm.
  destruct (print_config_summary_pot s1) as (t2 & r2 & Hs & Ht2 & Hr2).
  pose proof (main_body_eq w args s0 t1 s1 t2 r2 Hp Hu Hs) as Hb.
  destruct (update_settings_returns args s0) as (t & s' & E & Ht1 & _).
  rewrite Hu in E. injection E as <- <-.
  assert (Hmain :
    exists t3, prints_only t3
      /\ main_given w args
         = (EPrint LStarting :: t0 ++ EGetProjectSettings :: t1 ++ t2 ++ t3,
            Raise (SystemExit 1))).
  { destruct Hr2 as [-> | ->].
    - exists [EPrint LNoKeywords; EPrint LNoKeywordsHint; EPrint LNoKeywordsExample].
      split; [repeat constructor|].
      rewrite Hm, Hb. cbv zeta.
      rewrite (require_keywords_falsy s1 Hfalse), bind_pair_Raise.
      simpl. rewrite <- ?app_assoc. reflexivity.
    - exists [EPrint (LRuntimeError TypeError)].
      split; [repeat constructor|].
      rewrite Hm, Hb. simpl. rewrite <- !app_assoc. reflexivity. }
  destruct Hmain as (t3 & Ht3 & ->).
  split; [reflexivity|]. split; [reflexivity|].
  cbn [trace fst]. constructor; [reflexivity|].
  apply Forall_app. split; [eapply collect_errors_not_engine, Hc|].
  constructor; [reflexivity|].
  repeat (apply Forall_app; split); apply prints_not_engine; assumption.
Qed.


Lemma filter_engine_prints t :
  prints_only t -> List.filter is_engine_event t = [].
Proof.
  induction 1 as [|ev t Hev _ IH]; [reflexivity|].
  simpl. destruct ev; try discriminate Hev. exact IH.
Qed.



(** ** The crawl engine: window splitting *)

Lemma elem_of_days t x :
  x ∈ Core.days t <-> Core.date_start t <= x <= Core.date_end t.
Proof.
  unfold Core.days. rewrite elem_of_list_to_set, elem_of_seqZ. lia.
Qed.

(** C5: a task of more than one day splits into two sub-tasks whose days
    are disjoint and together are the days of the task; both sub-tasks
    keep the invariant of the dates. A task of one day does not split. *)
Theorem split_partitions_days (t : Core.SearchTask) :
  (Core.date_start t < Core.date_end t ->
   exists a b,
     Core.split t = Some (a, b)
     /\ Core.days a ∩ Core.days b = ∅
     /\ Core.days a ∪ Core.days b = Core.days t
     /\ Core.date_start a <= Core.date_end a
     /\ Core.date_start b <= Core.date_end b)
  /\ (Core.date_start t = Core.date_end t -> Core.split t = None).
Proof.
  split.
  - intros Hlt. unfold Core.split.
    destruct (Z.ltb_spec (Core.date_start t) (Core.date_end t)) as [_|]; [|lia].
    eexists _, _. split; [reflexivity|].
    set (mid := Core.date_start t
                + (Core.date_end t + 1 - Core.date_start t) / 2).
    assert (Hmid : Core.date_start t + 1 <= mid <= Core.date_end t).
    { subst mid.
      pose proof (Z.div_mod (Core.date_end t + 1 - Core.date_start t) 2 ltac:(lia)).
      pose proof (Z.mod_pos_bound (Core.date_end t + 1 - Core.date_start t) 2 ltac:(lia)).
      lia. }
    split; [|split; [|split]].
    + apply set_eq. intros x.
      rewrite elem_of_intersection, !elem_of_days, elem_of_empty. simpl. lia.
    + apply set_eq. intros x.
      rewrite elem_of_union, !elem_of_days. simpl. lia.
    + simpl. lia.
    + simpl. lia.
  - intros Heq. unfold Core.split.
    destruct (Z.ltb_spec (Core.date_start t) (Core.date_end t)); [lia | reflexivity].
Qed.

(** ** The crawl engine: dedup *)

Lemma dedup_accepts c seen :
  (Core.dedup c seen).1 = true <-> Core.content_id c ∉ seen.
Proof.
  unfold Core.dedup. case_bool_decide; simpl; split; intros; try done.
Qed.

Lemma dedup_seen c seen :
  (Core.dedup c seen).2
  = if (Core.dedup c seen).1 then {[Core.content_id c]} ∪ seen else seen.
Proof. unfold Core.dedup. case_bool_decide; reflexivity. Qed.

Lemma emits_once_nil l : emits_once l [] l.
Proof.
  split; [constructor|]. split; [intros id H; inversion H|].
  split; [simpl; set_solver | simpl; lia].
Qed.

Lemma emits_once_progress l1 l1' out l2 :
  same_progress l1 l1' -> emits_once l1' out l2 -> emits_once l1 out l2.
Proof.
  intros [Hc Hs] (Hn & Hf & Hu & He). unfold emits_once.
  rewrite <- Hc, <- Hs. auto.
Qed.

Lemma emits_once_app l1 out1 l2 out2 l3 :
  emits_once l1 out1 l2 -> emits_once l2 out2 l3 ->
  emits_once l1 (out1 ++ out2) l3.
Proof.
  intros (Hn1 & Hf1 & Hu1 & He1) (Hn2 & Hf2 & Hu2 & He2).
  unfold emits_once, Core.ids in *. rewrite fmap_app.
  split; [|split; [|split]].
  - apply NoDup_app. split; [exact Hn1|]. split; [|exact Hn2].
    intros id H1 H2. apply (Hf2 id H2). rewrite Hu1. set_solver.
  - intros id H. apply elem_of_app in H as [H|H]; [auto|].
    intros Hin. apply (Hf2 id H). rewrite Hu1. set_solver.
  - rewrite Hu2, Hu1, list_to_set_app_L. set_solver.
  - rewrite He2, He1, length_app. lia.
Qed.

Lemma emit_page_once limit records l out l' stopped :
  Core.emit_page limit records l = (out, l', stopped) -> emits_once l out l'.
Proof.
  revert l out l' stopped.
  induction records as [|r rest IH]; intros l out l' stopped H; simpl in H.
  - injection H as <- <- _. apply emits_once_nil.
  - unfold Core.dedup in H. case_bool_decide as Hin.
    + eapply IH, H.
    + set (l1 := Core.accept ({[Core.content_id r]} ∪ Core.seen_ids l) l) in *.
      assert (H1 : emits_once l [r] l1).
      { split; [apply NoDup_singleton|]. split; [|split].
        - intros id Hid. apply list_elem_of_singleton in Hid as ->. exact Hin.
        - simpl. set_solver.
        - simpl. lia. }
      destruct (Core.limit_reached limit l1).
      * injection H as <- <- _. exact H1.
      * destruct (Core.emit_page limit rest l1) as [[out1 l2] st] eqn:E.
        injection H as <- <- _.
        apply (emits_once_app l [r] l1 out1 l2 H1). eapply IH, E.
Qed.

Lemma next_page_progress l : same_progress l (Core.next_page l).
Proof. split; reflexivity. Qed.

Lemma next_task_progress l : same_progress l (Core.next_task l).
Proof. split; reflexivity. Qed.

Lemma run_task_once limit pages l out l' stopped :
  Core.run_task limit pages l = (out, l', stopped) -> emits_once l out l'.
Proof.
  revert l out l' stopped.
  induction pages as [|page rest IH]; intros l out l' stopped H; simpl in H.
  - injection H as <- <- _. apply emits_once_nil.
  - destruct (Core.emit_page limit page l) as [[out1 l1] st] eqn:E.
    pose proof (emit_page_once _ _ _ _ _ _ E) as H1.
    destruct st.
    + injection H as <- <- _. exact H1.
    + destruct (Core.run_task limit rest (Core.next_page l1)) as [[out2 l2] st2] eqn:E2.
      injection H as <- <- _.
      eapply emits_once_app; [exact H1|].
      eapply emits_once_progress; [apply next_page_progress | eapply IH, E2].
Qed.

Lemma run_tasks_once limit tasks l out l' stopped :
  Core.run_tasks limit tasks l = (out, l', stopped) -> emits_once l out l'.
Proof.
  revert l out l' stopped.
  induction tasks as [|pages rest IH]; intros l out l' stopped H; simpl in H.
  - injection H as <- <- _. apply emits_once_nil.
  - destruct (Core.run_task limit pages l) as [[out1 l1] st] eqn:E.
    pose proof (run_task_once _ _ _ _ _ _ E) as H1.
    destruct st.
    + injection H as <- <- _. exact H1.
    + destruct (Core.run_tasks limit rest (Core.next_task l1)) as [[out2 l2] st2] eqn:E2.
      injection H as <- <- _.
      eapply emits_once_app; [exact H1|].
      eapply emits_once_progress; [apply next_task_progress | eapply IH, E2].
Qed.

(** ** The crawl engine: the result limit *)

Lemma limit_zero_not_reached l : Core.limit_reached 0 l = false.
Proof. reflexivity. Qed.

Lemma emit_page_unlimited records l :
  (Core.emit_page 0 records l).2 = false.
Proof.
  revert l. induction records as [|r rest IH]; intros l; simpl; [reflexivity|].
  destruct (Core.dedup r (Core.seen_ids l)) as [[] seen]; [|apply IH].
  specialize (IH (Core.accept seen l)).
  destruct (Core.emit_page 0 rest (Core.accept seen l)) as [[o l1] st]. exact IH.
Qed.

Lemma run_task_unlimited pages l : (Core.run_task 0 pages l).2 = false.
Proof.
  revert l. induction pages as [|page rest IH]; intros l; simpl; [reflexivity|].
  pose proof (emit_page_unlimited page l) as H.
  destruct (Core.emit_page 0 page l) as [[o l1] st]. simpl in H. subst st.
  specialize (IH (Core.next_page l1)).
  destruct (Core.run_task 0 rest (Core.next_page l1)) as [[o2 l2] st2]. exact IH.
Qed.

Lemma run_tasks_unlimited tasks l : (Core.run_tasks 0 tasks l).2 = false.
Proof.
  revert l. induction tasks as [|pages rest IH]; intros l; simpl; [reflexivity|].
  pose proof (run_task_unlimited pages l) as H.
  destruct (Core.run_task 0 pages l) as [[o l1] st]. simpl in H. subst st.
  specialize (IH (Core.next_task l1)).
  destruct (Core.run_tasks 0 rest (Core.next_task l1)) as [[o2 l2] st2]. exact IH.
Qed.

Lemma limited_prefix_nil n l :
  Core.emitted_count l < n -> limited_prefix n l ([], l, false) ([], l, false).
Proof. intros H. split; [rewrite take_nil; reflexivity|]. simpl. split; [lia | reflexivity]. Qed.

Lemma limited_prefix_compose n l o0 l0 on ln sn l1 o0' l0' s0' on' ln' sn' :
  limited_prefix n l (o0, l0, false) (on, ln, sn) ->
  Core.emitted_count l1 = Core.emitted_count l + Z.of_nat (length o0) ->
  (sn = false -> limited_prefix n l1 (o0', l0', s0') (on', ln', sn')) ->
  limited_prefix n l (o0 ++ o0', l0', s0')
    (if sn then (on, ln, true) else (on ++ on', ln', sn')).
Proof.
  intros [Ht Hs] Hc Hrest. destruct sn.
  - destruct Hs as [Hle Hn]. split.
    + rewrite take_app_le by lia. exact Ht.
    + split; [rewrite length_app; lia | exact Hn].
  - destruct Hs as [Hlt ->]. destruct (Hrest eq_refl) as [Ht' Hs'].
    split.
    + rewrite take_app_ge by lia. rewrite take_ge in Ht by lia. subst on.
      f_equal. rewrite Ht'. f_equal. lia.
    + rewrite length_app. destruct sn'.
      * destruct Hs' as [Hle Hn]. split; [lia | exact Hn].
      * destruct Hs' as [Hlt' ->]. split; [lia | reflexivity].
Qed.

Lemma emit_page_limited n records l :
  0 < n -> Core.emitted_count l < n ->
  limited_prefix n l (Core.emit_page 0 records l) (Core.emit_page n records l).
Proof.
  intros Hn. revert l.
  induction records as [|r rest IH]; intros l Hl; simpl.
  - apply limited_prefix_nil, Hl.
  - destruct (Core.dedup r (Core.seen_ids l)) as [[] seen]; [|apply IH, Hl].
    set (l1 := Core.accept seen l).
    assert (Hc : Core.emitted_count l1 = Core.emitted_count l + 1) by reflexivity.
    unfold Core.limit_reached.
    destruct (Z.ltb_spec 0 n) as [_|]; [|lia]. simpl andb.
    destruct (Z.leb_spec n (Core.emitted_count l + 1)) as [Hle|Hlt].
    + destruct (Core.emit_page 0 rest l1) as [[o0 l0] s0].
      unfold limited_prefix. split.
      * replace (Z.to_nat (n - Core.emitted_count l)) with 1%nat by lia.
        reflexivity.
      * split; [simpl; lia | lia].
    + rewrite <- Hc in Hlt. specialize (IH l1 Hlt).
      destruct (Core.emit_page 0 rest l1) as [[o0 l0] s0].
      destruct (Core.emit_page n rest l1) as [[on ln] sn].
      destruct IH as [Ht Hs]. unfold limited_prefix. split.
      * replace (Z.to_nat (n - Core.emitted_count l))
          with (S (Z.to_nat (n - Core.emitted_count l1))) by lia.
        simpl. rewrite Ht. reflexivity.
      * destruct sn; (split; [simpl length; lia | apply Hs]).
Qed.

Lemma run_task_limited n pages l :
  0 < n -> Core.emitted_count l < n ->
  limited_prefix n l (Core.run_task 0 pages l) (Core.run_task n pages l).
Proof.
  intros Hn. revert l.
  induction pages as [|page rest IH]; intros l Hl; simpl.
  - apply limited_prefix_nil, Hl.
  - pose proof (emit_page_limited n page l Hn Hl) as Hp.
    pose proof (emit_page_unlimited page l) as Hu.
    destruct (Core.emit_page 0 page l) as [[o0 l0] s0] eqn:E0.
    simpl in Hu. subst s0.
    pose proof (emit_page_once _ _ _ _ _ _ E0) as (_ & _ & _ & Hc).
    destruct (Core.emit_page n page l) as [[on ln] sn] eqn:En.
    destruct (Core.run_task 0 rest (Core.next_page l0)) as [[o0' l0'] s0'] eqn:E0'.
    pose proof (limited_prefix_compose n l o0 l0 on ln sn (Core.next_page l0)
                  o0' l0' s0') as Hcomp.
    destruct sn.
    + apply (Hcomp [] l false Hp Hc). discriminate.
    + assert (ln = l0) as -> by (destruct Hp as [_ [_ ?]]; assumption).
      assert (Hlt : Core.emitted_count (Core.next_page l0) < n).
      { destruct Hp as [_ [? _]]. simpl. lia. }
      specialize (IH (Core.next_page l0) Hlt). rewrite E0' in IH.
      destruct (Core.run_task n rest (Core.next_page l0)) as [[on' ln'] sn'].
      apply (Hcomp on' ln' sn' Hp Hc). intros _. exact IH.
Qed.

Lemma run_tasks_limited n tasks l :
  0 < n -> Core.emitted_count l < n ->
  limited_prefix n l (Core.run_tasks 0 tasks l) (Core.run_tasks n tasks l).
Proof.
  intros Hn. revert l.
  induction tasks as [|pages rest IH]; intros l Hl; simpl.
  - apply limited_prefix_nil, Hl.
  - pose proof (run_task_limited n pages l Hn Hl) as Hp.
    pose proof (run_task_unlimited pages l) as Hu.
    destruct (Core.run_task 0 pages l) as [[o0 l0] s0] eqn:E0.
    simpl in Hu. subst s0.
    pose proof (run_task_once _ _ _ _ _ _ E0) as (_ & _ & _ & Hc).
    destruct (Core.run_task n pages l) as [[on ln] sn] eqn:En.
    destruct (Core.run_tasks 0 rest (Core.next_task l0)) as [[o0' l0'] s0'] eqn:E0'.
    pose proof (limited_prefix_compose n l o0 l0 on ln sn (Core.next_task l0)
                  o0' l0' s0') as Hcomp.
    destruct sn.
    + apply (Hcomp [] l false Hp Hc). discriminate.
    + assert (ln = l0) as -> by (destruct Hp as [_ [_ ?]]; assumption).
      assert (Hlt : Core.emitted_count (Core.next_task l0) < n).
      { destruct Hp as [_ [? _]]. simpl. lia. }
      specialize (IH (Core.next_task l0) Hlt). rewrite E0' in IH.
      destruct (Core.run_tasks n rest (Core.next_task l0)) as [[on' ln'] sn'].
      apply (Hcomp on' ln' sn' Hp Hc). intros _. exact IH.
Qed.

(** ** The crawl engine: emitted records and position *)

Lemma emit_page_sublist limit records l :
  (Core.emit_page limit records l).1.1 `sublist_of` records.
Proof.
  revert l. induction records as [|r rest IH]; intros l; simpl.
  - constructor.
  - destruct (Core.dedup r (Core.seen_ids l)) as [[] seen].
    + destruct (Core.limit_reached limit (Core.accept seen l)).
      * simpl. apply sublist_skip, sublist_nil_l.
      * specialize (IH (Core.accept seen l)).
        destruct (Core.emit_page limit rest (Core.accept seen l)) as [[o l1] st].
        simpl in *. apply sublist_skip, IH.
    + apply sublist_cons, IH.
Qed.

Lemma run_task_sublist limit pages l :
  (Core.run_task limit pages l).1.1 `sublist_of` concat pages.
Proof.
  revert l. induction pages as [|page rest IH]; intros l; simpl.
  - constructor.
  - pose proof (emit_page_sublist limit page l) as H.
    destruct (Core.emit_page limit page l) as [[o l1] st]. simpl in H.
    destruct st.
    + simpl. rewrite <- (app_nil_r o). apply sublist_app; [exact H | apply sublist_nil_l].
    + specialize (IH (Core.next_page l1)).
      destruct (Core.run_task limit rest (Core.next_page l1)) as [[o2 l2] st2].
      simpl in *. apply sublist_app; assumption.
Qed.

Lemma run_tasks_sublist limit tasks l :
  (Core.run_tasks limit tasks l).1.1 `sublist_of` candidates tasks.
Proof.
  unfold candidates.
  revert l. induction tasks as [|pages rest IH]; intros l; simpl.
  - constructor.
  - pose proof (run_task_sublist limit pages l) as H.
    destruct (Core.run_task limit pages l) as [[o l1] st]. simpl in H.
    destruct st.
    + simpl. rewrite <- (app_nil_r o). apply sublist_app; [exact H | apply sublist_nil_l].
    + specialize (IH (Core.next_task l1)).
      destruct (Core.run_tasks limit rest (Core.next_task l1)) as [[o2 l2] st2].
      simpl in *. apply sublist_app; assumption.
Qed.

(** Without a limit every candidate ends up in the seen set. *)
Lemma emit_page_sees_all records l :
  Core.seen_ids (Core.emit_page 0 records l).1.2
  = Core.seen_ids l ∪ list_to_set (Core.ids records).
Proof.
  revert l. induction records as [|r rest IH]; intros l; simpl.
  - set_solver.
  - unfold Core.dedup. case_bool_decide as Hin.
    + rewrite IH. set_solver.
    + set (l1 := Core.accept _ l). specialize (IH l1).
      destruct (Core.emit_page 0 rest l1) as [[o l2] st]. simpl in *.
      rewrite IH. subst l1. simpl. set_solver.
Qed.

Lemma run_task_sees_all pages l :
  Core.seen_ids (Core.run_task 0 pages l).1.2
  = Core.seen_ids l ∪ list_to_set (Core.ids (concat pages)).
Proof.
  revert l. induction pages as [|page rest IH]; intros l; simpl.
  - set_solver.
  - pose proof (emit_page_sees_all page l) as H.
    pose proof (emit_page_unlimited page l) as Hu.
    destruct (Core.emit_page 0 page l) as [[o l1] st]. simpl in H, Hu. subst st.
    specialize (IH (Core.next_page l1)).
    destruct (Core.run_task 0 rest (Core.next_page l1)) as [[o2 l2] st2].
    simpl in *. rewrite IH, H. unfold Core.ids. rewrite fmap_app, list_to_set_app_L.
    set_solver.
Qed.

Lemma run_tasks_sees_all tasks l :
  Core.seen_ids (Core.run_tasks 0 tasks l).1.2
  = Core.seen_ids l ∪ list_to_set (Core.ids (candidates tasks)).
Proof.
  unfold candidates.
  revert l. induction tasks as [|pages rest IH]; intros l; simpl.
  - set_solver.
  - pose proof (run_task_sees_all pages l) as H.
    pose proof (run_task_unlimited pages l) as Hu.
    destruct (Core.run_task 0 pages l) as [[o l1] st]. simpl in H, Hu. subst st.
    specialize (IH (Core.next_task l1)).
    destruct (Core.run_tasks 0 rest (Core.next_task l1)) as [[o2 l2] st2].
    simpl in *. rewrite IH, H. unfold Core.ids. rewrite fmap_app, list_to_set_app_L.
    set_solver.
Qed.

(** The cursor does not leave the page while its records are emitted. *)
Lemma emit_page_cursor limit records l :
  let l' := (Core.emit_page limit records l).1.2 in
  Core.task_index (Core.cursor l') = Core.task_index (Core.cursor l)
  /\ Core.page_number (Core.cursor l') = Core.page_number (Core.cursor l).
Proof.
  revert l. induction records as [|r rest IH]; intros l; simpl; [auto|].
  destruct (Core.dedup r (Core.seen_ids l)) as [[] seen]; [|apply IH].
  destruct (Core.limit_reached limit (Core.accept seen l)); [simpl; auto|].
  specialize (IH (Core.accept seen l)).
  destruct (Core.emit_page limit rest (Core.accept seen l)) as [[o l1] st].
  simpl in *. exact IH.
Qed.

Lemma emit_page_stops_at limit records l out l' :
  Core.emit_page limit records l = (out, l', true) ->
  exists r, last out = Some r /\ r ∈ records.
Proof.
  revert l out l'. induction records as [|r rest IH]; intros l out l' H; simpl in H.
  - discriminate.
  - destruct (Core.dedup r (Core.seen_ids l)) as [[] seen].
    + destruct (Core.limit_reached limit (Core.accept seen l)).
      * injection H as <- _. exists r. split; [reflexivity | apply elem_of_cons; auto].
      * destruct (Core.emit_page limit rest (Core.accept seen l)) as [[o l1] st] eqn:E.
        injection H as <- <- ->.
        destruct (IH _ _ _ E) as (r' & Hl & Hin). exists r'.
        split; [|apply elem_of_cons; auto].
        destruct o; [discriminate Hl | exact Hl].
    + destruct (IH _ _ _ H) as (r' & Hl & Hin). exists r'.
      split; [exact Hl | apply elem_of_cons; auto].
Qed.

Lemma run_task_cursor limit pages l :
  Core.task_index (Core.cursor (Core.run_task limit pages l).1.2)
  = Core.task_index (Core.cursor l).
Proof.
  revert l. induction pages as [|page rest IH]; intros l; simpl; [reflexivity|].
  pose proof (emit_page_cursor limit page l) as [Ht _].
  destruct (Core.emit_page limit page l) as [[o l1] st]. simpl in Ht.
  destruct st; [exact Ht|].
  specialize (IH (Core.next_page l1)).
  destruct (Core.run_task limit rest (Core.next_page l1)) as [[o2 l2] st2].
  simpl in *. rewrite IH. exact Ht.
Qed.

(** When a task ends the run, the cursor is on the page of the last
    emitted record. *)
Lemma run_task_stops_at limit pages l out l' :
  Core.run_task limit pages l = (out, l', true) ->
  exists (k : nat) page r,
    pages !! k = Some page
    /\ Core.page_number (Core.cursor l')
       = Core.page_number (Core.cursor l) + Z.of_nat k
    /\ last out = Some r /\ r ∈ page.
Proof.
  revert l out l'. induction pages as [|page rest IH]; intros l out l' H; simpl in H.
  - discriminate.
  - pose proof (emit_page_cursor limit page l) as [_ Hp].
    destruct (Core.emit_page limit page l) as [[o l1] st] eqn:E. simpl in Hp.
    destruct st.
    + injection H as <- <-.
      destruct (emit_page_stops_at _ _ _ _ _ E) as (r & Hl & Hin).
      exists 0%nat, page, r. repeat split; [lia | exact Hl | exact Hin].
    + destruct (Core.run_task limit rest (Core.next_page l1)) as [[o2 l2] st2] eqn:E2.
      injection H as <- <- ->.
      destruct (IH _ _ _ E2) as (k & page' & r & Hk & Hn & Hl & Hin).
      exists (S k), page', r. repeat split; [exact Hk | | | exact Hin].
      * rewrite Hn. simpl. lia.
      * apply last_app_Some. left. exact Hl.
Qed.

Lemma run_tasks_stops_at limit tasks l out l' :
  Core.run_tasks limit tasks l = (out, l', true) ->
  exists (j k : nat) pages page r,
    tasks !! j = Some pages /\ pages !! k = Some page
    /\ Core.task_index (Core.cursor l')
       = Core.task_index (Core.cursor l) + Z.of_nat j
    /\ Core.page_number (Core.cursor l')
       = (if j is O then Core.page_number (Core.cursor l) else 1) + Z.of_nat k
    /\ last out = Some r /\ r ∈ page.
Proof.
  revert l out l'. induction tasks as [|pages rest IH]; intros l out l' H; simpl in H.
  - discriminate.
  - pose proof (run_task_cursor limit pages l) as Ht.
    destruct (Core.run_task limit pages l) as [[o l1] st] eqn:E. simpl in Ht.
    destruct st.
    + injection H as <- <-.
      destruct (run_task_stops_at _ _ _ _ _ E) as (k & page & r & Hk & Hn & Hl & Hin).
      exists 0%nat, k, pages, page, r.
      repeat split; [exact Hk | lia | exact Hn | exact Hl | exact Hin].
    + destruct (Core.run_tasks limit rest (Core.next_task l1)) as [[o2 l2] st2] eqn:E2.
      injection H as <- <- ->.
      destruct (IH _ _ _ E2) as (j & k & pages' & page & r & Hj & Hk & Hti & Hn & Hl & Hin).
      exists (S j), k, pages', page, r.
      repeat split; [exact Hj | exact Hk | | | | exact Hin].
      * rewrite Hti. simpl. lia.
      * rewrite Hn. destruct j; reflexivity.
      * apply last_app_Some. left. exact Hl.
Qed.

(** C3: whatever the limit and the tasks of the queue, the records a run
    emits have pairwise different content ids, none of which was in the
    seen set the run started with; the seen set of the run grows by exactly
    these ids, the emitted records are candidates in their order, and
    [dedup] accepts a candidate, and adds its id, exactly when the id is
    not in the set. *)
Theorem no_content_id_emitted_twice (limit : Z)
    (tasks : list (list (list Core.PostRecord))) (l : Core.RunLedger) :
  let '(out, l', _) := Core.run_tasks limit tasks l in
  NoDup (Core.ids out)
  /\ (forall r, r ∈ out -> Core.content_id r ∉ Core.seen_ids l)
  /\ Core.seen_ids l' = Core.seen_ids l ∪ list_to_set (Core.ids out)
  /\ out `sublist_of` candidates tasks
  /\ (forall c seen,
        ((Core.dedup c seen).1 = true <-> Core.content_id c ∉ seen)
        /\ (Core.dedup c seen).2
           = if (Core.dedup c seen).1 then {[Core.content_id c]} ∪ seen else seen).
Proof.
  pose proof (run_tasks_sublist limit tasks l) as Hsub.
  destruct (Core.run_tasks limit tasks l) as [[out l'] stopped] eqn:E.
  destruct (run_tasks_once _ _ _ _ _ _ E) as (Hn & Hf & Hu & _).
  split; [exact Hn|]. split; [|split; [exact Hu|split; [exact Hsub|]]].
  - intros r Hr. apply Hf. unfold Core.ids. apply list_elem_of_fmap. eauto.
  - intros c seen. split; [apply dedup_accepts | apply dedup_seen].
Qed.

(** C4: a fresh run with the limit [n > 0] emits the first [n] records
    that the run without a limit emits, so exactly [n] when there are that
    many; it then stops at once, with a ledger that counts [n], holds the
    ids of the emitted records and points at the task and page of the last
    one. A run with the limit 0 never stops and sees every candidate. *)
Theorem limit_stops_at_exactly_n (n : Z)
    (tasks : list (list (list Core.PostRecord))) (q : list Core.SearchTask) :
  let '(out0, l0, stopped0) := Core.run_tasks 0 tasks (Core.fresh q) in
  let '(outn, ln, stoppedn) := Core.run_tasks n tasks (Core.fresh q) in
  (stopped0 = false
   /\ Core.seen_ids l0 = list_to_set (Core.ids (candidates tasks)))
  /\ (0 < n ->
      outn = take (Z.to_nat n) out0
      /\ Z.of_nat (length outn) = Z.min n (Z.of_nat (length out0))
      /\ (stoppedn = true <-> n <= Z.of_nat (length out0))
      /\ (stoppedn = true ->
          Z.of_nat (length outn) = n
          /\ Core.emitted_count ln = n
          /\ Core.seen_ids ln = list_to_set (Core.ids outn)
          /\ exists (j k : nat) pages page r,
               tasks !! j = Some pages /\ pages !! k = Some page
               /\ Core.task_index (Core.cursor ln) = Z.of_nat j
               /\ Core.page_number (Core.cursor ln) = 1 + Z.of_nat k
               /\ last outn = Some r /\ r ∈ page)).
Proof.
  pose proof (run_tasks_unlimited tasks (Core.fresh q)) as Hu.
  pose proof (run_tasks_sees_all tasks (Core.fresh q)) as Hall.
  pose proof (fun Hn => run_tasks_limited n tasks (Core.fresh q) Hn) as Hlim.
  destruct (Core.run_tasks 0 tasks (Core.fresh q)) as [[out0 l0] stopped0] eqn:E0.
  destruct (Core.run_tasks n tasks (Core.fresh q)) as [[outn ln] stoppedn] eqn:En.
  simpl in Hu, Hall. split.
  - split; [exact Hu|]. rewrite Hall. set_solver.
  - intros Hn. destruct (Hlim Hn) as [Ht Hs]; [simpl; lia|].
    simpl in Ht, Hs. rewrite Z.sub_0_r in Ht, Hs.
    assert (Hlen : Z.of_nat (length outn) = Z.min n (Z.of_nat (length out0))).
    { rewrite Ht, length_take. lia. }
    split; [exact Ht|]. split; [exact Hlen|]. split.
    + destruct stoppedn; split; try reflexivity; try lia; destruct Hs; lia.
    + intros ->. destruct Hs as [Hle Hc].
      destruct (run_tasks_once _ _ _ _ _ _ En) as (_ & _ & Hseen & _).
      destruct (run_tasks_stops_at _ _ _ _ _ En)
        as (j & k & pages & page & r & Hj & Hk & Hti & Hpn & Hl & Hin).
      split; [lia|]. split; [exact Hc|]. split; [rewrite Hseen; simpl; set_solver|].
      exists j, k, pages, page, r.
      split; [exact Hj|]. split; [exact Hk|]. split; [exact Hti|].
      split; [|split; [exact Hl | exact Hin]].
      rewrite Hpn. destruct j; reflexivity.
Qed.

(** ** What [split] and [strip] compute *)

Lemma split_nonempty sep s : Str.split sep s <> [].
Proof.
  destruct s as [|c t]; simpl; [discriminate|].
  destruct (c =? sep)%N; [discriminate|].
  destruct (Str.split sep t); discriminate.
Qed.

(** Joining the fields with the separator gives the string back. *)
Lemma join_split sep s : Str.join sep (Str.split sep s) = s.
Proof.
  induction s as [|c t IH]; [reflexivity|]. simpl.
  destruct (N.eqb_spec c sep) as [->|Hne].
  - simpl. destruct (Str.split sep t) as [|f fs] eqn:E.
    + exfalso. exact (split_nonempty sep t E).
    + rewrite IH. reflexivity.
  - destruct (Str.split sep t) as [|f fs] eqn:E.
    + exfalso. exact (split_nonempty sep t E).
    + simpl in *. destruct fs; simpl in *; rewrite <- IH; reflexivity.
Qed.

(** No field contains the separator. *)
Lemma split_no_separator sep s :
  Forall (fun f => sep ∉ f) (Str.split sep s).
Proof.
  pose proof (split_fields (fun _ => True) sep s) as H.
  eapply Forall_impl; [apply H, Forall_true; auto|].
  intros f Hf Hin. eapply Forall_forall in Hf; [|exact Hin]. destruct Hf; congruence.
Qed.

Lemma lstrip_decompose s :
  exists l, s = l ++ Str.lstrip s /\ Forall (fun c => Str.isspace c = true) l.
Proof.
  induction s as [|c t (l & El & Hl)]; simpl.
  - exists []. split; [reflexivity | constructor].
  - destruct (Str.isspace c) eqn:Ec.
    + exists (c :: l). split; [simpl; congruence | constructor; assumption].
    + exists []. split; [reflexivity | constructor].
Qed.

Lemma lstrip_head s c : head (Str.lstrip s) = Some c -> Str.isspace c = false.
Proof.
  induction s as [|x t IH]; simpl; [discriminate|].
  destruct (Str.isspace x) eqn:Ex; [exact IH|].
  simpl. intros [= <-]. exact Ex.
Qed.

(** [strip] removes a run of whitespace at each end, and nothing else; what
    is left neither begins nor ends with whitespace. *)
Lemma strip_decompose s :
  exists l r,
    s = l ++ Str.strip s ++ r
    /\ Forall (fun c => Str.isspace c = true) l
    /\ Forall (fun c => Str.isspace c = true) r.
Proof.
  destruct (lstrip_decompose s) as (l & El & Hl).
  destruct (lstrip_decompose (reverse (Str.lstrip s))) as (r & Er & Hr).
  exists l, (reverse r). split; [|split; [exact Hl | apply Forall_reverse, Hr]].
  unfold Str.strip, Str.rstrip. rewrite <- reverse_app, <- Er, reverse_involutive.
  exact El.
Qed.

Lemma strip_last s c : last (Str.strip s) = Some c -> Str.isspace c = false.
Proof.
  unfold Str.strip, Str.rstrip. rewrite last_reverse. apply lstrip_head.
Qed.

Lemma lstrip_suffix_last s c :
  last (Str.lstrip s) = Some c -> last s = Some c.
Proof.
  destruct (lstrip_decompose s) as (l & El & _). intros H.
  rewrite El. apply last_app_Some. left. exact H.
Qed.

Lemma strip_head s c : head (Str.strip s) = Some c -> Str.isspace c = false.
Proof.
  unfold Str.strip, Str.rstrip. rewrite head_reverse. intros H.
  apply lstrip_suffix_last in H. rewrite last_reverse in H.
  apply lstrip_head in H. exact H.
Qed.

(** Every token is non-empty, has no comma, and has no whitespace at
    either end. *)
Lemma tokens_clean s :
  Forall (fun t => t <> [] /\ (comma ∉ t)
                   /\ (forall c, head t = Some c -> Str.isspace c = false)
                   /\ (forall c, last t = Some c -> Str.isspace c = false))
    (tokens s).
Proof.
  unfold tokens. apply Forall_forall. intros t Ht.
  apply list_elem_of_In, List.filter_In in Ht as [Hin Htr].
  apply List.in_map_iff in Hin as (f & <- & Hf).
  split; [destruct (Str.strip f); [discriminate | discriminate]|].
  split; [|split; [apply strip_head | apply strip_last]].
  intros Hc. apply list_elem_of_In in Hf.
  pose proof (split_no_separator comma s) as Hn.
  eapply Forall_forall in Hn; [|exact Hf]. apply Hn.
  destruct (strip_decompose f) as (l & r & E & _ & _). rewrite E.
  apply elem_of_app. right. apply elem_of_app. left. exact Hc.
Qed.

(** ** The configured limit and the order of dates *)

(** [--limit n] is what the engine finds under [LIMIT_RESULT]. *)
Lemma update_settings_limit args s n :
  limit args = Some n ->
  returns (update_settings_from_args s args)
    (fun s' => s' !! "LIMIT_RESULT" = Some (VInt n)).
Proof.
  intros Hn. unfold update_settings_from_args.
  eapply returns_bind; [apply update_keywords_returns|]. intros s1 _.
  eapply returns_bind; [apply update_dates_returns|]. intros s2 _.
  eapply returns_bind; [apply update_types_returns|]. intros s3 _.
  eapply returns_bind; [apply update_region_returns|]. intros s4 _.
  eapply returns_bind with (Q := fun s5 => s5 !! "LIMIT_RESULT" = Some (VInt n)).
  { unfold update_limits. rewrite Hn.
    eapply returns_bind with (Q := fun s5 => s5 !! "LIMIT_RESULT" = Some (VInt n)).
    - apply returns_print_then. apply lookup_insert_eq.
    - intros s5 H5. destruct (delay args).
      + apply returns_print_then. unfold Settings.set.
        rewrite lookup_insert_ne by discriminate. exact H5.
      + apply returns_ret, H5. }
  intros s5 H5.
  eapply returns_bind; [apply update_output_dir_returns|]. intros s6 F6.
  eapply returns_weaken; [apply update_log_level_returns|]. intros s7 [F7 _].
  rewrite F7, F6; [exact H5| |]; intros H; not_a_key H.
Qed.

Lemma dt_gt_asym a b : dt_gt a b = true -> dt_gt b a = false.
Proof.
  unfold dt_gt. intros H.
  apply orb_true_iff in H as [H|H].
  - apply Z.ltb_lt in H.
    apply orb_false_iff. split; [apply Z.ltb_ge; lia|].
    apply andb_false_iff. left. apply Z.eqb_neq. lia.
  - apply andb_true_iff in H as [Hy H]. apply Z.eqb_eq in Hy.
    apply orb_true_iff in H as [H|H].
    + apply Z.ltb_lt in H.
      apply orb_false_iff. split; [apply Z.ltb_ge; lia|].
      apply andb_false_iff. right.
      apply orb_false_iff. split; [apply Z.ltb_ge; lia|].
      apply andb_false_iff. left. apply Z.eqb_neq. lia.
    + apply andb_true_iff in H as [Hm H]. apply Z.eqb_eq in Hm. apply Z.ltb_lt in H.
      apply orb_false_iff. split; [apply Z.ltb_ge; lia|].
      apply andb_false_iff. right.
      apply orb_false_iff. split; [apply Z.ltb_ge; lia|].
      apply andb_false_iff. right. apply Z.ltb_ge. lia.
Qed.

(** Of two different dates one is later than the other. *)
Lemma dt_gt_total a b : a = b \/ dt_gt a b = true \/ dt_gt b a = true.
Proof.
  destruct a as [ya ma da], b as [yb mb db]. unfold dt_gt. simpl.
  destruct (Z.lt_trichotomy ya yb) as [H|[->|H]].
  - right. right. apply orb_true_iff. left. apply Z.ltb_lt, H.
  - rewrite !Z.eqb_refl, Z.ltb_irrefl. simpl.
    destruct (Z.lt_trichotomy ma mb) as [H|[->|H]].
    + right. right. apply orb_true_iff. left. apply Z.ltb_lt, H.
    + rewrite !Z.eqb_refl, Z.ltb_irrefl. simpl.
      destruct (Z.lt_trichotomy da db) as [H|[->|H]].
      * right. right. apply Z.ltb_lt, H.
      * left. reflexivity.
      * right. left. apply Z.ltb_lt, H.
    + right. left. apply orb_true_iff. left. apply Z.ltb_lt, H.
  - right. left. apply orb_true_iff. left. apply Z.ltb_lt, H.
Qed.

(** * Further properties of [main.py] *)

(** ** [update_settings_from_args] in closed form *)

Lemma set_closed name value (p s : settings) :
  Settings.set name value (p ∪ s) = ({[name := value]} ∪ p) ∪ s.
Proof.
  unfold Settings.set. rewrite insert_union_singleton_l.
  apply (map_union_assoc _ _ _).
Qed.

Lemma skip_closed (p s : settings) : p ∪ s = (∅ ∪ p) ∪ s.
Proof. rewrite (map_empty_union p). reflexivity. Qed.

Lemma set_closed_first name value (s : settings) :
  Settings.set name value s = {[name := value]} ∪ s.
Proof. apply insert_union_singleton_l. Qed.

Lemma skip_closed_first (s : settings) : s = ∅ ∪ s.
Proof. symmetry. apply (map_empty_union s). Qed.

Lemma update_keywords_closed args s :
  returns (update_keywords args s) (fun s' =>
    s' = (if given (keywords args)
          then {["KEYWORD_LIST" := str_list (comma_list (text (keywords args)))]}
          else piece (given (keyword_file args)) "KEYWORD_LIST"
                 (VStr (text (keyword_file args)))) ∪ s).
Proof.
  unfold update_keywords, piece.
  destruct (given (keywords args)); [|destruct (given (keyword_file args))].
  - apply returns_print_then, set_closed_first.
  - apply returns_print_then, set_closed_first.
  - apply returns_ret, skip_closed_first.
Qed.

Lemma update_dates_closed args s :
  returns (update_dates args s) (fun s' =>
    s' = (piece (given (end_date args)) "END_DATE" (VStr (text (end_date args)))
          ∪ piece (given (start_date args)) "START_DATE" (VStr (text (start_date args))))
         ∪ s).
Proof.
  unfold update_dates.
  eapply returns_bind with (Q := fun s1 =>
    s1 = piece (given (start_date args)) "START_DATE" (VStr (text (start_date args))) ∪ s).
  - unfold piece. destruct (given (start_date args)).
    + apply returns_print_then, set_closed_first.
    + apply returns_ret, skip_closed_first.
  - intros s1 ->. unfold piece at 1. destruct (given (end_date args)).
    + apply returns_print_then, set_closed.
    + apply returns_ret, skip_closed.
Qed.

Lemma update_types_closed args s :
  returns (update_types args s) (fun s' =>
    s' = (number_piece (contain_type args) "CONTAIN_TYPE" VInt
          ∪ number_piece (weibo_type args) "WEIBO_TYPE" VInt) ∪ s).
Proof.
  unfold update_types.
  eapply returns_bind with (Q := fun s1 =>
    s1 = number_piece (weibo_type args) "WEIBO_TYPE" VInt ∪ s).
  - unfold number_piece. destruct (weibo_type args).
    + apply returns_print_then, set_closed_first.
    + apply returns_ret, skip_closed_first.
  - intros s1 ->. unfold number_piece at 1. destruct (contain_type args).
    + apply returns_print_then, set_closed.
    + apply returns_ret, skip_closed.
Qed.

Lemma update_region_closed args s :
  returns (update_region args s) (fun s' =>
    s' = piece (given (region args)) "REGION"
           (str_list (comma_list (text (region args)))) ∪ s).
Proof.
  unfold update_region, piece. destruct (given (region args)).
  - apply returns_print_then, set_closed_first.
  - apply returns_ret, skip_closed_first.
Qed.

Lemma update_limits_closed args s :
  returns (update_limits args s) (fun s' =>
    s' = (number_piece (delay args) "DOWNLOAD_DELAY" VFloat
          ∪ number_piece (limit args) "LIMIT_RESULT" VInt) ∪ s).
Proof.
  unfold update_limits.
  eapply returns_bind with (Q := fun s1 =>
    s1 = number_piece (limit args) "LIMIT_RESULT" VInt ∪ s).
  - unfold number_piece. destruct (limit args).
    + apply returns_print_then, set_closed_first.
    + apply returns_ret, skip_closed_first.
  - intros s1 ->. unfold number_piece at 1. destruct (delay args).
    + apply returns_print_then, set_closed.
    + apply returns_ret, skip_closed.
Qed.

Lemma update_output_dir_closed args s :
  returns (update_output_dir args s) (fun s' =>
    s' = (piece (given (output_dir args)) "FILES_STORE" (VStr (text (output_dir args)))
          ∪ piece (given (output_dir args)) "IMAGES_STORE"
              (VStr (text (output_dir args)))) ∪ s).
Proof.
  unfold update_output_dir, piece. destruct (given (output_dir args)).
  - apply returns_print_then.
    rewrite (set_closed_first "IMAGES_STORE" _ s). apply set_closed.
  - apply returns_ret. rewrite <- skip_closed. apply skip_closed_first.
Qed.

Lemma update_log_level_closed args s :
  returns (update_log_level args s) (fun s' =>
    s' = {["LOG_LEVEL" := VStr (log_level_name (arg_log_level args))]} ∪ s).
Proof.
  unfold update_log_level.
  destruct (arg_log_level args);
    first [apply returns_print_then | apply returns_ret]; apply set_closed_first.
Qed.

(** The settings after [update_settings_from_args] are the overrides of the
    arguments laid over the settings it was given. *)
Lemma update_settings_closed_form (args : Args) (s : settings) :
  exists t, update_settings_from_args s args = (t, Ret (overrides args ∪ s))
            /\ prints_only t.
Proof.
  assert (H : returns (update_settings_from_args s args)
                (fun s' => s' = overrides args ∪ s)).
  { unfold update_settings_from_args, overrides.
    eapply returns_bind; [apply update_keywords_closed|]. intros s1 ->.
    eapply returns_bind; [apply update_dates_closed|]. intros s2 ->.
    eapply returns_bind; [apply update_types_closed|]. intros s3 ->.
    eapply returns_bind; [apply update_region_closed|]. intros s4 ->.
    eapply returns_bind; [apply update_limits_closed|]. intros s5 ->.
    eapply returns_bind; [apply update_output_dir_closed|]. intros s6 ->.
    eapply returns_weaken; [apply update_log_level_closed|]. intros s7 ->.
    rewrite !(map_union_assoc _ _ s). reflexivity. }
  destruct H as (t & s' & E & Ht & ->). exists t. split; assumption.
Qed.

Lemma lookup_piece (c : bool) name value k :
  piece c name value !! k = if bool_decide (name = k) && c then Some value else None.
Proof.
  unfold piece. case_bool_decide as E; destruct c; simpl.
  - subst. apply lookup_singleton_eq.
  - apply lookup_empty.
  - apply lookup_singleton_ne, E.
  - apply lookup_empty.
Qed.

Lemma lookup_number_piece {A} (a : option A) name (value : A -> pyval) k :
  number_piece a name value !! k
  = if bool_decide (name = k) then value <$> a else None.
Proof.
  unfold number_piece. case_bool_decide as E; destruct a; simpl.
  - subst. apply lookup_singleton_eq.
  - apply lookup_empty.
  - apply lookup_singleton_ne, E.
  - apply lookup_empty.
Qed.

Lemma lookup_keyword_piece args k :
  (if given (keywords args)
   then {["KEYWORD_LIST" := str_list (comma_list (text (keywords args)))]}
   else piece (given (keyword_file args)) "KEYWORD_LIST"
          (VStr (text (keyword_file args)))) !! k
  = if bool_decide ("KEYWORD_LIST" = k)
    then (if given (keywords args)
          then Some (str_list (comma_list (text (keywords args))))
          else if given (keyword_file args)
               then Some (VStr (text (keyword_file args))) else None)
    else None.
Proof.
  destruct (given (keywords args)).
  - case_bool_decide as E; [subst; apply lookup_singleton_eq | apply lookup_singleton_ne, E].
  - rewrite lookup_piece. case_bool_decide; reflexivity.
Qed.

Lemma lookup_log_piece (v : pyval) k :
  ({["LOG_LEVEL" := v]} : settings) !! k
  = if bool_decide ("LOG_LEVEL" = k) then Some v else None.
Proof.
  case_bool_decide as E; [subst; apply lookup_singleton_eq | apply lookup_singleton_ne, E].
Qed.

(** What [overrides] holds under a key. *)
Ltac lookup_overrides :=
  unfold overrides;
  rewrite ?lookup_union, ?lookup_piece, ?lookup_number_piece,
    ?lookup_keyword_piece, ?lookup_log_piece;
  repeat first [ rewrite (bool_decide_eq_true_2 (_ = _)) by reflexivity
               | rewrite (bool_decide_eq_false_2 (_ = _)) by discriminate ];
  cbn [andb].

(** X1: every option that is given can be read back under its key, a zero
    included; an option that is not given leaves the key as it was; the
    keyword file counts only without [--keywords]. *)
Theorem update_settings_values (args : Args) (s : settings) :
  exists t s',
    update_settings_from_args s args = (t, Ret s')
    /\ s' !! "KEYWORD_LIST"
       = (if given (keywords args)
          then Some (str_list (comma_list (text (keywords args))))
          else if given (keyword_file args)
               then Some (VStr (text (keyword_file args)))
               else s !! "KEYWORD_LIST")
    /\ s' !! "START_DATE"
       = (if given (start_date args) then Some (VStr (text (start_date args)))
          else s !! "START_DATE")
    /\ s' !! "END_DATE"
       = (if given (end_date args) then Some (VStr (text (end_date args)))
          else s !! "END_DATE")
    /\ s' !! "WEIBO_TYPE"
       = match weibo_type args with Some n => Some (VInt n) | None => s !! "WEIBO_TYPE" end
    /\ s' !! "CONTAIN_TYPE"
       = match contain_type args with Some n => Some (VInt n) | None => s !! "CONTAIN_TYPE" end
    /\ s' !! "REGION"
       = (if given (region args) then Some (str_list (comma_list (text (region args))))
          else s !! "REGION")
    /\ s' !! "LIMIT_RESULT"
       = match limit args with Some n => Some (VInt n) | None => s !! "LIMIT_RESULT" end
    /\ s' !! "DOWNLOAD_DELAY"
       = match delay args with Some f => Some (VFloat f) | None => s !! "DOWNLOAD_DELAY" end
    /\ s' !! "IMAGES_STORE"
       = (if given (output_dir args) then Some (VStr (text (output_dir args)))
          else s !! "IMAGES_STORE")
    /\ s' !! "FILES_STORE"
       = (if given (output_dir args) then Some (VStr (text (output_dir args)))
          else s !! "FILES_STORE").
Proof.
  destruct (update_settings_closed_form args s) as (t & E & _).
  exists t, (overrides args ∪ s). split; [exact E|].
  repeat split; rewrite lookup_union; lookup_overrides;
    match goal with |- context [s !! ?k] => destruct (s !! k) end;
    repeat match goal with
           | |- context [given ?a] => destruct (given a)
           | |- context [match ?a with Some _ => _ | None => _ end] => destruct a
           end; reflexivity.
Qed.

(** X2: applying the same arguments a second time changes nothing. *)
Theorem update_settings_idempotent (args : Args) (s : settings) :
  exists t s' t',
    update_settings_from_args s args = (t, Ret s')
    /\ update_settings_from_args s' args = (t', Ret s').
Proof.
  destruct (update_settings_closed_form args s) as (t & E & _).
  destruct (update_settings_closed_form args (overrides args ∪ s)) as (t' & E' & _).
  exists t, (overrides args ∪ s), t'. split; [exact E|].
  rewrite E'. f_equal. f_equal.
  rewrite (map_union_assoc _ _ s), (map_union_idemp (overrides args)). reflexivity.
Qed.

(** ** [validate_arguments] in closed form *)

Lemma collect_errors_closed w args :
  collect_errors w args
  = if dates_crash w args then ([], Raise (Exception ValueError))
    else ((if wants_makedirs w args then [EMakedirs (text (output_dir args))] else []),
          Ret (expected_errors w args)).
Proof.
  unfold collect_errors, check_start_format, check_end_format, check_date_order,
    check_keyword_file, check_output_dir, dates_crash, expected_errors,
    wants_makedirs, order_bad, parses, validate_date.
  destruct (given (start_date args)); destruct (given (end_date args));
    cbn [andb negb];
    repeat match goal with
           | |- context [strptime ?d ?s] =>
               let E := fresh "E" in
               destruct (strptime d s) as [?|?] eqn:E;
               [|apply strptime_only_ValueError in E; subst]
           end;
    unfold lift, mbind, M_bind, bind, mret, M_ret, ret, emit; simpl;
    repeat match goal with
           | |- context [dt_gt ?a ?b] => destruct (dt_gt a b)
           | |- context [isfile ?w ?p] => destruct (isfile w p)
           | |- context [isdir ?w ?p] => destruct (isdir w p)
           | |- context [given ?a] => destruct (given a)
           | |- context [makedirs ?w ?p] => destruct (makedirs w p)
           end;
    simpl; reflexivity.
Qed.

Lemma validate_arguments_closed w args :
  validate_arguments w args
  = if dates_crash w args then ([], Raise (Exception ValueError))
    else
      ((if wants_makedirs w args then [EMakedirs (text (output_dir args))] else [])
       ++ match expected_errors w args with
          | [] => []
          | _ :: _ => EPrint LValidationFailed :: error_lines (expected_errors w args)
          end,
       match expected_errors w args with
       | [] => Ret tt
       | _ :: _ => Raise (SystemExit 1)
       end).
Proof.
  unfold validate_arguments. rewrite collect_errors_closed.
  destruct (dates_crash w args); [reflexivity|].
  rewrite bind_pair_Ret.
  destruct (expected_errors w args) as [|e errors] eqn:E.
  - reflexivity.
  - rewrite report_errors_some by discriminate. reflexivity.
Qed.

(** X3: when both dates are given and [validate_date] rejects one of them, the
    second parse of lines 120-121 raises ValueError out of
    [validate_arguments]: nothing is printed or created, and [main] ends
    with an uncaught exception, exit status 1, after its first line. *)
Theorem unparsable_date_pair_crashes (w : World) (args : Args) (s e : pystr) :
  parse_args w = Parsed args ->
  start_date args = Some s -> end_date args = Some e ->
  s <> [] -> e <> [] ->
  validate_date (unicode_decimal w) s = Ret false
  \/ validate_date (unicode_decimal w) e = Ret false ->
  validate_arguments w args = ([], Raise (Exception ValueError))
  /\ main w = ([EPrint LStarting], Raise (Exception ValueError))
  /\ exit_status (outcome (main w)) = 1.
Proof.
  intros Hparse. rewrite (main_parsed w args Hparse).
  intros Hs He Hsn Hen Hbad.
  assert (Hc : dates_crash w args = true).
  { unfold dates_crash, parses. rewrite Hs, He. simpl text.
    replace (given (Some s)) with true by (destruct s; [congruence | reflexivity]).
    replace (given (Some e)) with true by (destruct e; [congruence | reflexivity]).
    simpl. unfold validate_date in Hbad.
    destruct (strptime (unicode_decimal w) s), (strptime (unicode_decimal w) e);
      try reflexivity.
    destruct Hbad; discriminate. }
  assert (Hv : validate_arguments w args = ([], Raise (Exception ValueError))).
  { rewrite validate_arguments_closed, Hc. reflexivity. }
  split; [exact Hv|].
  rewrite (main_validation_raises _ _ _ _ Hv). split; reflexivity.
Qed.

(** X4: without that crash, [validate_arguments] creates the output directory
    when it is given and missing, then reports every failed check in the
    order of the checks and exits with status 1; when no check fails it
    returns and has printed nothing. *)
Theorem validate_arguments_reports (w : World) (args : Args) :
  dates_crash w args = false ->
  validate_arguments w args
  = ((if wants_makedirs w args then [EMakedirs (text (output_dir args))] else [])
     ++ match expected_errors w args with
        | [] => []
        | _ :: _ => EPrint LValidationFailed :: error_lines (expected_errors w args)
        end,
     match expected_errors w args with
     | [] => Ret tt
     | _ :: _ => Raise (SystemExit 1)
     end).
Proof. intros H. rewrite validate_arguments_closed, H. reflexivity. Qed.

Lemma expected_errors_nil w args :
  expected_errors w args = []
  <-> (given (start_date args) = true -> parses w (start_date args) = true)
      /\ (given (end_date args) = true -> parses w (end_date args) = true)
      /\ order_bad w args = false
      /\ (given (keyword_file args) = true ->
          isfile w (text (keyword_file args)) = true)
      /\ (wants_makedirs w args = true ->
          makedirs w (text (output_dir args)) = None).
Proof.
  unfold expected_errors.
  destruct (given (start_date args)), (parses w (start_date args)),
    (given (end_date args)), (parses w (end_date args)), (order_bad w args),
    (given (keyword_file args)), (isfile w (text (keyword_file args))),
    (wants_makedirs w args), (makedirs w (text (output_dir args)));
    simpl; split; try discriminate; try reflexivity;
    try (intros (H1 & H2 & H3 & H4 & H5);
         first [ discriminate (H1 eq_refl) | discriminate (H2 eq_refl)
               | discriminate H3 | discriminate (H4 eq_refl)
               | discriminate (H5 eq_refl) ]);
    intros _; repeat split; intros; congruence.
Qed.

(** X5: [validate_arguments] returns exactly when every given date parses, the
    start is not later than the end, a given keyword file exists, and a
    given output directory exists or can be created. *)
Theorem validation_passes_iff (w : World) (args : Args) :
  outcome (validate_arguments w args) = Ret tt
  <-> (given (start_date args) = true -> parses w (start_date args) = true)
      /\ (given (end_date args) = true -> parses w (end_date args) = true)
      /\ order_bad w args = false
      /\ (given (keyword_file args) = true ->
          isfile w (text (keyword_file args)) = true)
      /\ (wants_makedirs w args = true ->
          makedirs w (text (output_dir args)) = None).
Proof.
  rewrite <- expected_errors_nil, validate_arguments_closed.
  destruct (dates_crash w args) eqn:Hc.
  - simpl. split; [discriminate|]. intros Hnil. exfalso.
    unfold dates_crash in Hc. unfold expected_errors in Hnil.
    destruct (given (start_date args)), (given (end_date args));
      try discriminate Hc.
    destruct (parses w (start_date args)), (parses w (end_date args));
      simpl in *; discriminate.
  - simpl. destruct (expected_errors w args); split; congruence.
Qed.

(** X6: the output directory is created during validation exactly when it is
    given and missing and the dates do not crash the validation, whether
    or not another check fails. *)
Theorem makedirs_iff (w : World) (args : Args) (d : pystr) :
  EMakedirs d ∈ trace (validate_arguments w args)
  <-> dates_crash w args = false /\ wants_makedirs w args = true
      /\ d = text (output_dir args).
Proof.
  rewrite validate_arguments_closed.
  destruct (dates_crash w args).
  - simpl. split; [intros H; inversion H | intros (H & _); discriminate].
  - cbn [trace fst]. rewrite elem_of_app. split.
    + intros [H|H].
      * destruct (wants_makedirs w args); [|inversion H].
        apply list_elem_of_singleton in H. injection H as ->. auto.
      * exfalso. destruct (expected_errors w args); [inversion H|].
        apply elem_of_cons in H as [H|H]; [discriminate|].
        unfold error_lines in H. apply list_elem_of_fmap in H as (x & Hx & _).
        discriminate.
    + intros (_ & -> & ->). left. apply list_elem_of_singleton. reflexivity.
Qed.

(** ** When [print_config_summary] fails *)

Lemma fails_seq_l (m k : M unit) : fails_TypeError m -> fails_TypeError (m;; k).
Proof. intros (t & -> & Ht). exists t. split; [reflexivity | exact Ht]. Qed.

Lemma fails_seq_r (m k : M unit) :
  returns m (fun _ => True) -> fails_TypeError k -> fails_TypeError (m;; k).
Proof.
  intros (t & [] & -> & Ht & _) (t' & -> & Ht').
  exists (t ++ t'). split; [reflexivity | apply Forall_app; split; assumption].
Qed.

Lemma fails_raise : fails_TypeError (raise (Exception TypeError)).
Proof. exists []. split; [reflexivity | constructor]. Qed.

Lemma str_items_None items :
  is_str_list (VList items) = false -> str_items items = None.
Proof.
  simpl. intros H. apply bool_decide_eq_false in H.
  destruct (str_items items); [exfalso; apply H; eauto | reflexivity].
Qed.

Lemma summary_keywords_cases s :
  let v := Settings.get "KEYWORD_LIST" (VList []) s in
  if match v with
     | VStr _ => true
     | VList _ => is_str_list v
     | _ => negb (truthy v)
     end
  then returns (summary_keywords s) (fun _ => True)
  else fails_TypeError (summary_keywords s).
Proof.
  unfold summary_keywords.
  destruct (Settings.get "KEYWORD_LIST" (VList []) s) as [|b|z|f|x|items] eqn:E;
    cbv zeta; try apply returns_print.
  - destruct b; simpl; [apply fails_raise | apply returns_print].
  - simpl. destruct (z =? 0); simpl; [apply returns_print | apply fails_raise].
  - destruct f; simpl; first [apply returns_print | apply fails_raise].
  - destruct (is_str_list (VList items)) eqn:Hl.
    + destruct (truthy (VList items)); [|apply returns_print].
      destruct (is_str_list_items _ Hl) as [l ->]. apply returns_print.
    + rewrite (str_items_None _ Hl).
      destruct items as [|x items]; [discriminate Hl|]. simpl. apply fails_raise.
Qed.

Lemma summary_lookup_cases key l :
  if negb (is_list key) then returns (summary_lookup key l) (fun _ => True)
  else fails_TypeError (summary_lookup key l).
Proof. destruct key; simpl; first [apply returns_print | apply fails_raise]. Qed.

Lemma summary_region_cases s :
  let r := Settings.get "REGION" (VList [VStr [20840; 37096]%N]) s in
  if negb (is_list r) || is_str_list r
  then returns (summary_region s) (fun _ => True)
  else fails_TypeError (summary_region s).
Proof.
  unfold summary_region.
  destruct (Settings.get "REGION" (VList [VStr [20840%N; 37096%N]]) s)
    as [| | | | |items] eqn:E; cbv zeta; try apply returns_print.
  cbn [is_list negb orb].
  destruct (is_str_list (VList items)) eqn:Hl.
  - destruct (is_str_list_items _ Hl) as [l ->]. apply returns_print.
  - rewrite (str_items_None _ Hl). apply fails_raise.
Qed.

Lemma ill_typed_summary s :
  well_typed s = false -> fails_TypeError (print_config_summary s).
Proof.
  unfold well_typed, print_config_summary. intros H.
  pose proof (summary_keywords_cases s) as Hk.
  pose proof (summary_lookup_cases (Settings.get "WEIBO_TYPE" (VInt 0) s)
                (LSummaryWeiboType (Settings.get "WEIBO_TYPE" (VInt 0) s))) as Hw.
  pose proof (summary_lookup_cases (Settings.get "CONTAIN_TYPE" (VInt 0) s)
                (LSummaryContainType (Settings.get "CONTAIN_TYPE" (VInt 0) s))) as Hc.
  pose proof (summary_region_cases s) as Hr.
  cbv zeta in *.
  repeat (apply fails_seq_r; [apply returns_print|]).
  destruct (match Settings.get "KEYWORD_LIST" (VList []) s with
            | VStr _ => true
            | VList _ => is_str_list (Settings.get "KEYWORD_LIST" (VList []) s)
            | _ => negb (truthy (Settings.get "KEYWORD_LIST" (VList []) s))
            end); [|apply fails_seq_l, Hk].
  apply fails_seq_r; [exact Hk|].
  apply fails_seq_r; [apply returns_print|].
  destruct (negb (is_list (Settings.get "WEIBO_TYPE" (VInt 0) s)));
    [|apply fails_seq_l, Hw].
  apply fails_seq_r; [exact Hw|].
  destruct (negb (is_list (Settings.get "CONTAIN_TYPE" (VInt 0) s)));
    [|apply fails_seq_l, Hc].
  apply fails_seq_r; [exact Hc|].
  simpl in H. rewrite H in Hr. apply fails_seq_l, Hr.
Qed.


(** ** [main] in every case *)

Lemma main_handler_eq e :
  main_handler e = (handled_line e, Raise (SystemExit (handled_status e))).
Proof. destruct e; reflexivity. Qed.

Lemma try_main_handler (t : list event) (r : result unit) :
  try_except (t, r) main_handler
  = match r with
    | Ret a => (t, Ret a)
    | Raise e => (t ++ handled_line e, Raise (SystemExit (handled_status e)))
    end.
Proof. destruct r as [a|e]; [reflexivity|]. simpl. rewrite main_handler_eq. reflexivity. Qed.

Lemma run_crawl_cases w s :
  run_crawl w s
  = match engine_create w s with
    | Some e => ([ECrawlerProcess s], Raise e)
    | None =>
        match engine_crawl w "search" with
        | Some e => ([ECrawlerProcess s; ECrawl "search"], Raise e)
        | None =>
            match engine_start w with
            | Some e => (crawl_calls s, Raise e)
            | None => (crawl_calls s, Ret tt)
            end
        end
    end.
Proof.
  unfold run_crawl.
  destruct (engine_create w s), (engine_crawl w "search"), (engine_start w);
    reflexivity.
Qed.

(** The body of the [try] once the settings are loaded, updated and
    printed. *)
Lemma main_body_cases w args s0 t1 s1 t2 r2 :
  project_settings w = Ret s0 ->
  update_settings_from_args s0 args = (t1, Ret s1) ->
  print_config_summary s1 = (t2, r2) ->
  main_body w args
  = match r2 with
    | Raise e => (EGetProjectSettings :: t1 ++ t2, Raise e)
    | Ret _ =>
        if truthy (Settings.get "KEYWORD_LIST" VNone s1)
        then (EGetProjectSettings :: t1 ++ t2
                ++ [EPrint LReady; EPrint LStopHint] ++ trace (run_crawl w s1)
                ++ match outcome (run_crawl w s1) with
                   | Ret _ => [EPrint LFinished]
                   | Raise _ => []
                   end,
              outcome (run_crawl w s1))
        else (EGetProjectSettings :: t1 ++ t2
                ++ [EPrint LNoKeywords; EPrint LNoKeywordsHint;
                    EPrint LNoKeywordsExample],
              Raise (SystemExit 1))
    end.
Proof.
  intros Hp Hu Hs. rewrite (main_body_eq w args s0 t1 s1 t2 r2 Hp Hu Hs).
  destruct r2 as [[]|e]; [|reflexivity]. cbv zeta.
  destruct (truthy (Settings.get "KEYWORD_LIST" VNone s1)) eqn:Hk.
  - rewrite (require_keywords_truthy s1 Hk), bind_pair_Ret.
    unfold print, emit. rewrite bind_pair_Ret. cbv beta.
    rewrite bind_pair_Ret. cbv beta.
    destruct (run_crawl w s1) as [t3 [[]|e]]; simpl; rewrite ?app_nil_r; reflexivity.
  - rewrite (require_keywords_falsy s1 Hk), bind_pair_Raise. reflexivity.
Qed.

Lemma main_body_settings_fail w args e :
  project_settings w = Raise e ->
  main_body w args = ([EGetProjectSettings], Raise e).
Proof.
  intros Hp. unfold main_body, emit, lift. rewrite Hp, bind_pair_Ret. cbv beta.
  rewrite bind_pair_Raise. reflexivity.
Qed.

Lemma main_past_validation w args tv t r :
  validate_arguments w args = (tv, Ret tt) ->
  main_body w args = (t, r) ->
  main_given w args
  = match r with
    | Ret a => (EPrint LStarting :: tv ++ t, Ret a)
    | Raise e => (EPrint LStarting :: tv ++ t ++ handled_line e,
                  Raise (SystemExit (handled_status e)))
    end.
Proof.
  intros Hv Hb. rewrite (main_validation_passes _ _ _ Hv), Hb, try_main_handler.
  destruct r; reflexivity.
Qed.

Ltac norm_trace :=
  cbn [app];
  repeat first [rewrite <- app_assoc | rewrite <- app_comm_cons];
  cbn [app]; reflexivity.

Lemma main_eq_closed w args : main_given w args = main_closed w args.
Proof.
  unfold main_closed.
  pose proof (validate_arguments_closed w args) as Hv.
  destruct (dates_crash w args).
  { apply main_validation_raises, Hv. }
  cbv zeta.
  destruct (expected_errors w args) as [|e0 errors] eqn:Eerr.
  2:{ rewrite (main_validation_raises _ _ _ _ Hv). reflexivity. }
  rewrite app_nil_r in Hv.
  destruct (project_settings w) as [s0|e] eqn:Hp.
  2:{ rewrite (main_past_validation _ _ _ _ _ Hv (main_body_settings_fail _ _ _ Hp)).
      reflexivity. }
  destruct (update_settings_closed_form args s0) as (t1 & Hu & Ht1).
  rewrite Hu. cbn [trace fst].
  destruct (well_typed (overrides args ∪ s0)) eqn:Hw; cbn [negb].
  - destruct (well_typed_summary _ Hw) as (t2 & [] & Hs & Ht2 & _).
    pose proof (main_body_cases w args s0 t1 _ t2 _ Hp Hu Hs) as Hb.
    cbv iota in Hb. rewrite Hs. cbn [trace fst].
    destruct (truthy (Settings.get "KEYWORD_LIST" VNone (overrides args ∪ s0)));
      cbn [negb].
    + rewrite (main_past_validation _ _ _ _ _ Hv Hb).
      destruct (outcome (run_crawl w (overrides args ∪ s0))) as [[]|e];
        norm_trace.
    + rewrite (main_past_validation _ _ _ _ _ Hv Hb).
      norm_trace.
  - destruct (ill_typed_summary _ Hw) as (t2 & Hs & Ht2).
    pose proof (main_body_cases w args s0 t1 _ t2 _ Hp Hu Hs) as Hb.
    cbv iota in Hb. rewrite Hs. cbn [trace fst].
    rewrite (main_past_validation _ _ _ _ _ Hv Hb).
    norm_trace.
Qed.

(** ** The engine calls of [main] *)

Lemma filter_quiet t :
  Forall (fun ev => is_engine_event ev = false) t -> List.filter is_engine_event t = [].
Proof.
  induction 1 as [|ev t Hev _ IH]; [reflexivity|]. simpl. rewrite Hev. exact IH.
Qed.

Lemma filter_made w args :
  List.filter is_engine_event
    (if wants_makedirs w args then [EMakedirs (text (output_dir args))] else []) = [].
Proof. destruct (wants_makedirs w args); reflexivity. Qed.

Lemma filter_handled_line e : List.filter is_engine_event (handled_line e) = [].
Proof. destruct e; reflexivity. Qed.

Lemma filter_error_lines errors : List.filter is_engine_event (error_lines errors) = [].
Proof. apply filter_quiet. unfold error_lines. apply Forall_fmap, Forall_true. reflexivity. Qed.

Lemma filter_update_trace s args :
  List.filter is_engine_event (trace (update_settings_from_args s args)) = [].
Proof.
  destruct (update_settings_closed_form args s) as (t & -> & Ht).
  apply filter_engine_prints, Ht.
Qed.

Lemma filter_summary_trace s :
  List.filter is_engine_event (trace (print_config_summary s)) = [].
Proof.
  destruct (print_config_summary_pot s) as (t & r & -> & Ht & _).
  apply filter_engine_prints, Ht.
Qed.

Lemma filter_run_crawl w s :
  List.filter is_engine_event (trace (run_crawl w s)) = trace (run_crawl w s).
Proof.
  rewrite run_crawl_cases.
  destruct (engine_create w s), (engine_crawl w "search"), (engine_start w);
    reflexivity.
Qed.

Ltac filter_trace :=
  cbn [trace fst List.filter is_engine_event app];
  rewrite ?List.filter_app;
  cbn [List.filter is_engine_event app];
  rewrite ?List.filter_app;
  cbn [List.filter is_engine_event app];
  rewrite ?filter_made, ?filter_handled_line, ?filter_error_lines,
    ?filter_update_trace, ?filter_summary_trace, ?filter_run_crawl, ?app_nil_r;
  cbn [app].

Lemma main_engine_events w args :
  List.filter is_engine_event (trace (main_given w args)) = engine_events w args.
Proof.
  rewrite main_eq_closed. unfold main_closed, engine_events.
  destruct (dates_crash w args); [reflexivity|]. cbv zeta.
  destruct (expected_errors w args) as [|e0 errors].
  2:{ filter_trace. destruct (project_settings w); reflexivity. }
  destruct (project_settings w) as [s0|e]; [|filter_trace; reflexivity].
  destruct (well_typed (overrides args ∪ s0)); cbn [negb andb];
    [|filter_trace; reflexivity].
  destruct (truthy (Settings.get "KEYWORD_LIST" VNone (overrides args ∪ s0)));
    cbn [negb]; [|filter_trace; reflexivity].
  destruct (outcome (run_crawl w (overrides args ∪ s0))); filter_trace; reflexivity.
Qed.



Lemma validation_passes_closed w args :
  outcome (validate_arguments w args) = Ret tt
  <-> dates_crash w args = false /\ expected_errors w args = [].
Proof.
  rewrite validate_arguments_closed.
  destruct (dates_crash w args); simpl.
  - split; [discriminate | intros [H _]; discriminate].
  - destruct (expected_errors w args); split; try discriminate; auto.
    intros [_ H]; discriminate.
Qed.

Lemma engine_entered_iff_given (w : World) (args : Args) (s : settings) :
  ECrawlerProcess s ∈ trace (main_given w args) <-> ready w args s.
Proof.
  assert (Hf : ECrawlerProcess s ∈ trace (main_given w args)
               <-> ECrawlerProcess s ∈ engine_events w args).
  { rewrite <- main_engine_events, !list_elem_of_In, List.filter_In.
    split; [intros H; split; [exact H | reflexivity] | tauto]. }
  rewrite Hf. unfold ready. rewrite validation_passes_closed. unfold engine_events.
  destruct (dates_crash w args).
  { split; [intros H; inversion H | intros [[H _] _]; discriminate]. }
  destruct (expected_errors w args).
  2:{ split; [intros H; destruct (project_settings w); inversion H
             | intros [[_ H] _]; discriminate]. }
  destruct (project_settings w) as [s0|e].
  2:{ split; [intros H; inversion H | intros (_ & s0 & H & _); discriminate]. }
  cbv zeta.
  destruct (well_typed (overrides args ∪ s0)) eqn:Hw;
    destruct (truthy (Settings.get "KEYWORD_LIST" VNone (overrides args ∪ s0))) eqn:Hk;
    cbn [andb].
  - rewrite run_crawl_cases. split.
    + intros H. split; [auto|]. exists s0.
      assert (s = overrides args ∪ s0) as ->.
      { destruct (engine_create w _), (engine_crawl w "search"), (engine_start w);
          cbn [trace fst crawl_calls] in H;
          repeat (apply elem_of_cons in H as [H|H]; [congruence|]);
          inversion H. }
      auto.
    + intros (_ & s0' & [= <-] & -> & _).
      destruct (engine_create w _), (engine_crawl w "search"), (engine_start w);
        cbn [trace fst crawl_calls]; apply elem_of_cons; left; reflexivity.
  - split; [intros H; inversion H|].
    intros (_ & s0' & [= <-] & -> & _ & H). congruence.
  - split; [intros H; inversion H|].
    intros (_ & s0' & [= <-] & -> & H & _). congruence.
  - split; [intros H; inversion H|].
    intros (_ & s0' & [= <-] & -> & H & _). congruence.
Qed.

(** X9: the crawler process is created exactly when validation passes, the
    project settings load, the updated settings keep the configuration
    contract and hold a true keyword list; it is created from these
    updated settings and from no others. *)
Theorem engine_entered_iff (w : World) (s : settings) :
  ECrawlerProcess s ∈ trace (main w)
  <-> exists args, parse_args w = Parsed args /\ ready w args s.
Proof.
  destruct (parse_args w) as [args| |] eqn:Hparse.
  - rewrite (main_parsed w args Hparse), engine_entered_iff_given. split.
    + intros H. exists args. auto.
    + intros (args' & [= <-] & H). exact H.
  - rewrite (main_help w Hparse). split.
    + intros H. cbn [trace fst] in H.
      repeat (apply elem_of_cons in H as [H|H]; [discriminate|]). inversion H.
    + intros (args' & H & _). discriminate.
  - rewrite (main_rejected w Hparse). split.
    + intros H. cbn [trace fst] in H.
      repeat (apply elem_of_cons in H as [H|H]; [discriminate|]). inversion H.
    + intros (args' & H & _). discriminate.
Qed.

Lemma main_returns_iff_given (w : World) (args : Args) :
  outcome (main_given w args) = Ret tt
  <-> exists s, ready w args s
                /\ engine_create w s = None
                /\ engine_crawl w "search" = None
                /\ engine_start w = None.
Proof.
  rewrite main_eq_closed. unfold main_closed, ready.
  setoid_rewrite validation_passes_closed.
  destruct (dates_crash w args).
  { split; [discriminate | intros (s & [[H _] _] & _); discriminate]. }
  cbv zeta. destruct (expected_errors w args).
  2:{ split; [discriminate | intros (s & [[_ H] _] & _); discriminate]. }
  destruct (project_settings w) as [s0|e].
  2:{ split; [discriminate | intros (s & [_ (s0 & H & _)] & _); discriminate]. }
  destruct (well_typed (overrides args ∪ s0)) eqn:Hw; cbn [negb].
  2:{ split; [discriminate|].
      intros (s & [_ (s0' & [= <-] & -> & H & _)] & _). congruence. }
  destruct (truthy (Settings.get "KEYWORD_LIST" VNone (overrides args ∪ s0))) eqn:Hk;
    cbn [negb].
  2:{ split; [discriminate|].
      intros (s & [_ (s0' & [= <-] & -> & _ & H)] & _). congruence. }
  rewrite run_crawl_cases. split.
  - intros H. exists (overrides args ∪ s0).
    destruct (engine_create w _), (engine_crawl w "search"), (engine_start w);
      try discriminate H.
    repeat split; eauto.
  - intros (s & [_ (s0' & [= <-] & -> & _)] & -> & -> & ->). reflexivity.
Qed.

(** X10: [main] returns normally exactly when everything before the crawl
    passes and the three engine calls return. *)
Theorem main_returns_iff (w : World) :
  outcome (main w) = Ret tt
  <-> exists args s, parse_args w = Parsed args
                     /\ ready w args s
                     /\ engine_create w s = None
                     /\ engine_crawl w "search" = None
                     /\ engine_start w = None.
Proof.
  destruct (parse_args w) as [args| |] eqn:Hparse.
  - rewrite (main_parsed w args Hparse), main_returns_iff_given. split.
    + intros (s & H). exists args, s. auto.
    + intros (args' & s & [= <-] & H). exists s. exact H.
  - rewrite (main_help w Hparse). split; [discriminate|].
    intros (args' & s & H & _). discriminate.
  - rewrite (main_rejected w Hparse). split; [discriminate|].
    intros (args' & s & H & _). discriminate.
Qed.

(** X11: when the crawl is entered and one of the three engine calls raises,
    [main] prints the line of its handler and ends with the status of that
    handler: 0 for KeyboardInterrupt, 1 for an Exception. The end message
    is not printed after the calls. *)
Theorem crawl_exception_exit_status (w : World) (args : Args) (s : settings) (e : exn) :
  parse_args w = Parsed args ->
  ready w args s ->
  engine_create w s = Some e
  \/ (engine_create w s = None /\ engine_crawl w "search" = Some e)
  \/ (engine_create w s = None /\ engine_crawl w "search" = None
      /\ engine_start w = Some e) ->
  outcome (main w) = Raise (SystemExit (handled_status e))
  /\ exit_status (outcome (main w)) = handled_status e
  /\ exists before,
       trace (main w) = before ++ trace (run_crawl w s) ++ handled_line e
       /\ Forall (fun ev => is_engine_event ev = false) before.
Proof.
  intros Hparse. rewrite (main_parsed w args Hparse).
  intros (Hv & s0 & Hp & -> & Hw & Hk) He.
  apply validation_passes_closed in Hv as [Hc Herr].
  assert (Hrc : outcome (run_crawl w (overrides args ∪ s0)) = Raise e).
  { rewrite run_crawl_cases.
    destruct He as [-> | [[-> ->] | (-> & -> & ->)]]; reflexivity. }
  rewrite main_eq_closed. unfold main_closed.
  rewrite Hc, Herr, Hp. cbv zeta. rewrite Hw, Hk. cbn [negb]. rewrite Hrc.
  split; [reflexivity|]. split; [reflexivity|].
  eexists. split.
  - cbn [trace fst]. rewrite app_assoc. reflexivity.
  - apply Forall_app. split; [|repeat constructor].
    constructor; [reflexivity|]. apply Forall_app. split.
    + destruct (wants_makedirs w args); repeat constructor.
    + constructor; [reflexivity|]. apply Forall_app. split.
      * destruct (update_settings_closed_form args s0) as (t & -> & Ht).
        apply prints_not_engine, Ht.
      * destruct (print_config_summary_pot (overrides args ∪ s0)) as (t & r & -> & Ht & _).
        apply prints_not_engine, Ht.
Qed.

(** X12: when validation passes and [get_project_settings] raises, [main] ends
    in its handler without having updated or printed any setting. *)
Theorem settings_load_failure (w : World) (args : Args) (e : exn) :
  parse_args w = Parsed args ->
  outcome (validate_arguments w args) = Ret tt ->
  project_settings w = Raise e ->
  main w
  = (EPrint LStarting :: trace (validate_arguments w args)
       ++ [EGetProjectSettings] ++ handled_line e,
     Raise (SystemExit (handled_status e))).
Proof.
  intros Hparse. rewrite (main_parsed w args Hparse).
  intros Hv Hp. pose proof Hv as Hv'.
  apply validation_passes_closed in Hv' as [Hc Herr].
  rewrite main_eq_closed, validate_arguments_closed. unfold main_closed.
  rewrite Hc, Herr, Hp. cbn [trace fst]. rewrite app_nil_r. reflexivity.
Qed.

(** X13: when the updated settings break the configuration contract, the
    summary raises TypeError and [main] ends with status 1 after the line
    of its handler; no engine call is made. *)
Theorem ill_typed_settings_abort (w : World) (args : Args) (s0 : settings) :
  parse_args w = Parsed args ->
  outcome (validate_arguments w args) = Ret tt ->
  project_settings w = Ret s0 ->
  well_typed (overrides args ∪ s0) = false ->
  outcome (main w) = Raise (SystemExit 1)
  /\ last (trace (main w)) = Some (EPrint (LRuntimeError TypeError))
  /\ List.filter is_engine_event (trace (main w)) = [].
Proof.
  intros Hparse. rewrite (main_parsed w args Hparse).
  intros Hv Hp Hw. apply validation_passes_closed in Hv as [Hc Herr].
  rewrite main_engine_events. unfold engine_events.
  rewrite main_eq_closed. unfold main_closed.
  rewrite Hc, Herr, Hp. cbv zeta. rewrite Hw. cbn [negb andb].
  split; [reflexivity|]. split; [|reflexivity].
  cbn [trace fst]. apply last_snoc.
Qed.



(** ** The keyword list and the line that prints it *)

Lemma split_app_sep sep f r :
  sep ∉ f -> Str.split sep (f ++ sep :: r) = f :: Str.split sep r.
Proof.
  induction f as [|c f IH]; intros Hn; simpl.
  - rewrite N.eqb_refl. reflexivity.
  - apply not_elem_of_cons in Hn as [Hc Hf].
    destruct (N.eqb_spec c sep) as [->|_]; [congruence|].
    rewrite (IH Hf). reflexivity.
Qed.

Lemma split_one sep f : sep ∉ f -> Str.split sep f = [f].
Proof.
  induction f as [|c f IH]; intros Hn; simpl; [reflexivity|].
  apply not_elem_of_cons in Hn as [Hc Hf].
  destruct (N.eqb_spec c sep) as [->|_]; [congruence|].
  rewrite (IH Hf). reflexivity.
Qed.

Lemma lstrip_clean t :
  (forall c, head t = Some c -> Str.isspace c = false) -> Str.lstrip t = t.
Proof.
  destruct t as [|c t]; simpl; [reflexivity|]. intros H.
  rewrite (H c eq_refl). reflexivity.
Qed.

Lemma strip_clean t : clean t -> Str.strip t = t.
Proof.
  intros (_ & _ & Hh & Hl). unfold Str.strip, Str.rstrip.
  rewrite (lstrip_clean t Hh), lstrip_clean; [apply reverse_involutive|].
  intros c. rewrite head_reverse. apply Hl.
Qed.

Lemma strip_space_clean t : clean t -> Str.strip (32%N :: t) = t.
Proof. intros H. rewrite <- (strip_clean t H) at 2. reflexivity. Qed.

Lemma comma_list_cons_clean f r :
  clean f -> comma_list (f ++ comma :: r) = f :: comma_list r.
Proof.
  intros Hf. pose proof Hf as (Hne & Hc & _). unfold comma_list.
  rewrite (split_app_sep comma f r Hc). cbn [List.filter].
  rewrite (strip_clean f Hf). destruct f as [|c f]; [congruence|].
  cbn [Str.truthy map]. rewrite (strip_clean _ Hf). reflexivity.
Qed.

Lemma comma_list_space s : comma_list (32%N :: s) = comma_list s.
Proof.
  unfold comma_list. simpl.
  destruct (Str.split comma s) as [|f fs] eqn:E; [exfalso; exact (split_nonempty _ _ E)|].
  cbn [List.filter]. change (Str.strip (32%N :: f)) with (Str.strip f).
  destruct (Str.truthy (Str.strip f)); reflexivity.
Qed.

Lemma comma_list_one f : clean f -> comma_list f = [f].
Proof.
  intros Hf. pose proof Hf as (Hne & Hc & _). unfold comma_list.
  rewrite (split_one comma f Hc). cbn [List.filter].
  rewrite (strip_clean f Hf). destruct f as [|c f]; [congruence|].
  cbn [Str.truthy map]. rewrite (strip_clean _ Hf). reflexivity.
Qed.

Lemma comma_list_clean s : Forall clean (comma_list s).
Proof. rewrite comma_list_tokens. apply tokens_clean. Qed.

(** X16: the keyword text that the summary prints on line 215, read again as
    a [--keywords] value, gives the list that was printed exactly when the
    list is not empty and every keyword of it is clean. The lists that
    line 148 builds are clean; for the empty one the summary prints the
    word for "not set", which reads back as a keyword. *)
Theorem printed_keywords_parse_back (l : list pystr) :
  (comma_list (summary_keyword_text l) = l <-> l <> [] /\ Forall clean l)
  /\ comma_list (summary_keyword_text []) = [unset_text]
  /\ forall s, comma_list (summary_keyword_text (comma_list s))
               = match comma_list s with
                 | [] => [unset_text]
                 | _ :: _ => comma_list s
                 end.
Proof.
  assert (Hback : forall l, l <> [] -> Forall clean l ->
                            comma_list (summary_keyword_text l) = l).
  { clear l. intros l Hne H. unfold summary_keyword_text.
    destruct l as [|f0 l0]; [congruence|]. clear Hne.
    revert H. generalize (f0 :: l0). clear f0 l0. intros l H.
    induction H as [|f fs Hf Hfs IH]; [reflexivity|].
    destruct fs as [|g fs]; [exact (comma_list_one f Hf)|].
    change (join_with [comma; 32%N] (f :: g :: fs))
      with (f ++ comma :: 32%N :: join_with [comma; 32%N] (g :: fs)).
    rewrite (comma_list_cons_clean _ _ Hf), comma_list_space, IH. reflexivity. }
  split; [split|split].
  - intros E. split.
    + intros ->. discriminate E.
    + rewrite <- E. apply comma_list_clean.
  - intros [Hne H]. apply Hback; assumption.
  - reflexivity.
  - intros s. destruct (comma_list s) as [|f fs] eqn:E; [reflexivity|].
    rewrite <- E. apply Hback; [rewrite E; discriminate | apply comma_list_clean].
Qed.

(** ** An empty option is an absent option *)

Lemma given_absent a : given (absent_if_empty a) = given a.
Proof. destruct a as [[|c s]|]; reflexivity. Qed.

Lemma text_absent a : text (absent_if_empty a) = text a.
Proof. destruct a as [[|c s]|]; reflexivity. Qed.

Lemma mbind_ext {A B} (m : M A) (k k' : A -> M B) :
  (forall x, k x = k' x) -> (m ≫= k) = (m ≫= k').
Proof.
  intros H. unfold mbind, M_bind, bind. destruct m as [t [a|e]]; [|reflexivity].
  rewrite H. reflexivity.
Qed.

Ltac same_fields :=
  unfold normalize;
  cbn [keywords keyword_file start_date end_date weibo_type contain_type
       region limit delay output_dir arg_log_level];
  rewrite ?given_absent, ?text_absent; reflexivity.

Lemma update_settings_normalize s args :
  update_settings_from_args s (normalize args) = update_settings_from_args s args.
Proof.
  unfold update_settings_from_args.
  replace (update_keywords (normalize args) s) with (update_keywords args s)
    by (unfold update_keywords; same_fields).
  apply mbind_ext. intros s1.
  replace (update_dates (normalize args) s1) with (update_dates args s1)
    by (unfold update_dates; same_fields).
  apply mbind_ext. intros s2.
  apply mbind_ext. intros s3.
  replace (update_region (normalize args) s3) with (update_region args s3)
    by (unfold update_region; same_fields).
  apply mbind_ext. intros s4.
  apply mbind_ext. intros s5.
  replace (update_output_dir (normalize args) s5) with (update_output_dir args s5)
    by (unfold update_output_dir; same_fields).
  apply mbind_ext. intros s6. reflexivity.
Qed.

Lemma dates_crash_normalize w args : dates_crash w (normalize args) = dates_crash w args.
Proof. unfold dates_crash, parses. same_fields. Qed.

Lemma wants_makedirs_normalize w args :
  wants_makedirs w (normalize args) = wants_makedirs w args.
Proof. unfold wants_makedirs. same_fields. Qed.

Lemma expected_errors_normalize w args :
  expected_errors w (normalize args) = expected_errors w args.
Proof. unfold expected_errors, order_bad, wants_makedirs, parses. same_fields. Qed.

Lemma overrides_normalize args : overrides (normalize args) = overrides args.
Proof. unfold overrides. same_fields. Qed.

(** X15: every string option is read through its truth value first: a run with
    an option set to the empty string is the run without the option, event
    for event and with the same outcome. *)
Theorem empty_option_is_absent (w : World) (args : Args) :
  main (on_args w (normalize args)) = main (on_args w args)
  /\ validate_arguments w (normalize args) = validate_arguments w args
  /\ forall s, update_settings_from_args s (normalize args)
               = update_settings_from_args s args.
Proof.
  split; [|split].
  - rewrite (main_parsed (on_args w (normalize args)) (normalize args) eq_refl),
      (main_parsed (on_args w args) args eq_refl).
    change (main_given w (normalize args) = main_given w args).
    rewrite !main_eq_closed. unfold main_closed.
    rewrite dates_crash_normalize, wants_makedirs_normalize,
      expected_errors_normalize, overrides_normalize.
    replace (text (output_dir (normalize args))) with (text (output_dir args))
      by (symmetry; same_fields).
    destruct (dates_crash w args); [reflexivity|]. cbv zeta.
    destruct (expected_errors w args); [|reflexivity].
    destruct (project_settings w) as [s0|e]; [|reflexivity].
    rewrite update_settings_normalize. reflexivity.
  - rewrite !validate_arguments_closed.
    rewrite dates_crash_normalize, wants_makedirs_normalize,
      expected_errors_normalize.
    replace (text (output_dir (normalize args))) with (text (output_dir args))
      by (symmetry; same_fields).
    reflexivity.
  - intros s. apply update_settings_normalize.
Qed.

(** ** The dates [validate_date] accepts *)

Lemma in_range (P : N -> Prop) (lo len : nat) :
  Forall P (N.of_nat <$> seq lo len) ->
  forall m, (N.of_nat lo <= m < N.of_nat (lo + len))%N -> P m.
Proof.
  intros H m Hm. rewrite Forall_forall in H. apply H.
  apply list_elem_of_fmap. exists (N.to_nat m). split; [lia|].
  apply elem_of_seq. lia.
Qed.

Section Dates.

Variable decimal : N -> option N.
Hypothesis known : knows_ascii_digits decimal.

Lemma ascii_table :
decimal 48 = Some 0%N /\ decimal 49 = Some 1%N /\ decimal 50 = Some 2%N
/\ decimal 51 = Some 3%N /\ decimal 52 = Some 4%N /\ decimal 53 = Some 5%N
/\ decimal 54 = Some 6%N /\ decimal 55 = Some 7%N /\ decimal 56 = Some 8%N
/\ decimal 57 = Some 9%N.
Proof.
repeat split;
  [exact (known 0%N eq_refl) | exact (known 1%N eq_refl) | exact (known 2%N eq_refl)
  | exact (known 3%N eq_refl) | exact (known 4%N eq_refl) | exact (known 5%N eq_refl)
  | exact (known 6%N eq_refl) | exact (known 7%N eq_refl) | exact (known 8%N eq_refl)
  | exact (known 9%N eq_refl)].
Qed.

Ltac by_range lo len :=
match goal with
| |- forall m, _ -> @?P m => apply (in_range P lo len)
end.

Ltac run_cases :=
destruct ascii_table as (D0 & D1 & D2 & D3 & D4 & D5 & D6 & D7 & D8 & D9);
cbn [seq fmap list_fmap]; repeat constructor; intros;
do 3 (cbv in *; rewrite ?D0, ?D1, ?D2, ?D3, ?D4, ?D5, ?D6, ?D7, ?D8, ?D9);
try match goal with H : _ = Some _ |- _ => rewrite H end; reflexivity.

Lemma rmatch_year {R} y1 y2 y3 y4 rest c (k : pystr -> Re.captures -> option R) :
(y1 < 10)%N -> (y2 < 10)%N -> (y3 < 10)%N -> (y4 < 10)%N ->
Re.rmatch decimal Re.re_Y
  (digit_char y1 :: digit_char y2 :: digit_char y3 :: digit_char y4 :: rest) c k
= k rest c.
Proof.
intros H1 H2 H3 H4. cbn [Re.rmatch Re.re_Y].
rewrite !known by assumption. reflexivity.
Qed.

Lemma rmatch_month {R} m :
(1 <= m < 13)%N ->
forall rest c (k : pystr -> Re.captures -> option R) r,
  k rest c = Some r ->
  Re.rmatch decimal Re.re_m (digit_char (m / 10) :: digit_char (m mod 10) :: rest) c k
  = Some r.
Proof. revert m. by_range 1%nat 12%nat. run_cases. Qed.

Lemma rmatch_day {R} d :
(1 <= d < 32)%N ->
forall rest c (k : pystr -> Re.captures -> option R) r,
  k rest c = Some r ->
  Re.rmatch decimal Re.re_d (digit_char (d / 10) :: digit_char (d mod 10) :: rest) c k
  = Some r.
Proof. revert d. by_range 1%nat 31%nat. run_cases. Qed.

Lemma int_two_digits n :
(1 <= n < 32)%N -> Re.int decimal (two_digits n) = Some (Z.of_N n).
Proof. revert n. by_range 1%nat 31%nat. run_cases. Qed.

Lemma rmatch_month_short {R} m :
(1 <= m < 10)%N ->
forall rest c (k : pystr -> Re.captures -> option R) r,
  k (hyphen :: rest) c = Some r ->
  Re.rmatch decimal Re.re_m (digit_char m :: hyphen :: rest) c k = Some r.
Proof. revert m. by_range 1%nat 9%nat. run_cases. Qed.

Lemma rmatch_day_short {R} d :
(1 <= d < 10)%N ->
forall c (k : pystr -> Re.captures -> option R) r,
  k [] c = Some r ->
  Re.rmatch decimal Re.re_d [digit_char d] c k = Some r.
Proof. revert d. by_range 1%nat 9%nat. run_cases. Qed.

Lemma int_one_digit n :
(1 <= n < 10)%N -> Re.int decimal [digit_char n] = Some (Z.of_N n).
Proof. revert n. by_range 1%nat 9%nat. run_cases. Qed.

Lemma digit_not_space v : (v < 10)%N -> Str.isspace (digit_char v) = false.
Proof.
intros Hv. assert (Hr : (N.of_nat 0 <= v < N.of_nat (0 + 10))%N) by lia.
clear Hv. revert v Hr. by_range 0%nat 10%nat.
cbn [seq fmap list_fmap]. repeat constructor.
Qed.

Lemma strip_ends t :
(forall c, head t = Some c -> Str.isspace c = false) ->
(forall c, last t = Some c -> Str.isspace c = false) ->
Str.strip t = t.
Proof.
intros Hh Hl. unfold Str.strip, Str.rstrip.
rewrite (lstrip_clean t Hh), lstrip_clean; [apply reverse_involutive|].
intros c. rewrite head_reverse. apply Hl.
Qed.

Lemma int_year y1 y2 y3 y4 :
(y1 < 10)%N -> (y2 < 10)%N -> (y3 < 10)%N -> (y4 < 10)%N ->
Re.int decimal [digit_char y1; digit_char y2; digit_char y3; digit_char y4]
= Some (year_of y1 y2 y3 y4).
Proof.
intros H1 H2 H3 H4. unfold Re.int. rewrite strip_ends.
- cbn [Re.int_of_digits foldl]. rewrite !known by assumption.
  unfold year_of. f_equal. lia.
- intros c [= <-]. apply digit_not_space, H1.
- intros c [= <-]. apply digit_not_space, H4.
Qed.

Lemma match_iso y1 y2 y3 y4 m d :
(y1 < 10)%N -> (y2 < 10)%N -> (y3 < 10)%N -> (y4 < 10)%N ->
(1 <= m <= 12)%N -> (1 <= d <= 31)%N ->
Re.match_prefix decimal Re.date_pattern (iso_text y1 y2 y3 y4 m d)
= Some ({| Re.capY := [digit_char y1; digit_char y2; digit_char y3; digit_char y4];
           Re.capm := two_digits m;
           Re.capd := two_digits d |}, []).
Proof.
intros H1 H2 H3 H4 Hm Hd.
unfold Re.match_prefix, Re.date_pattern, iso_text, two_digits.
cbn [Re.rmatch app]. rewrite rmatch_year by assumption.
cbn [Re.rmatch]. rewrite N.eqb_refl.
apply rmatch_month; [lia|].
cbn [Re.rmatch]. rewrite N.eqb_refl.
apply rmatch_day; [lia|].
reflexivity.
Qed.

Lemma match_short y1 y2 y3 y4 m d :
(y1 < 10)%N -> (y2 < 10)%N -> (y3 < 10)%N -> (y4 < 10)%N ->
(1 <= m <= 9)%N -> (1 <= d <= 9)%N ->
Re.match_prefix decimal Re.date_pattern (short_text y1 y2 y3 y4 m d)
= Some ({| Re.capY := [digit_char y1; digit_char y2; digit_char y3; digit_char y4];
           Re.capm := [digit_char m];
           Re.capd := [digit_char d] |}, []).
Proof.
intros H1 H2 H3 H4 Hm Hd.
unfold Re.match_prefix, Re.date_pattern, short_text.
cbn [Re.rmatch app]. rewrite rmatch_year by assumption.
cbn [Re.rmatch]. rewrite N.eqb_refl.
apply rmatch_month_short; [lia|].
cbn [Re.rmatch]. rewrite N.eqb_refl.
apply rmatch_day_short; [lia|].
reflexivity.
Qed.

End Dates.

(** X17: a date written YYYY-MM-DD with ASCII digits, a month from 01 to 12 and
    a day from 01 to 31 is parsed to the date it names when that day is in
    the calendar, and is a ValueError otherwise; [validate_date] returns
    the answer of the calendar and never raises on such a text. *)
Theorem iso_dates_validate (decimal : N -> option N) (y1 y2 y3 y4 m d : N) :
  knows_ascii_digits decimal ->
  (y1 < 10)%N -> (y2 < 10)%N -> (y3 < 10)%N -> (y4 < 10)%N ->
  (1 <= m <= 12)%N -> (1 <= d <= 31)%N ->
  strptime decimal (iso_text y1 y2 y3 y4 m d)
  = (if valid_date (year_of y1 y2 y3 y4) (Z.of_N m) (Z.of_N d)
     then Ret {| year := year_of y1 y2 y3 y4; month := Z.of_N m; day := Z.of_N d |}
     else Raise (Exception ValueError))
  /\ validate_date decimal (iso_text y1 y2 y3 y4 m d)
     = Ret (valid_date (year_of y1 y2 y3 y4) (Z.of_N m) (Z.of_N d)).
Proof.
  intros K H1 H2 H3 H4 Hm Hd.
  assert (E : strptime decimal (iso_text y1 y2 y3 y4 m d)
              = (if valid_date (year_of y1 y2 y3 y4) (Z.of_N m) (Z.of_N d)
                 then Ret {| year := year_of y1 y2 y3 y4;
                             month := Z.of_N m; day := Z.of_N d |}
                 else Raise (Exception ValueError))).
  { unfold strptime. rewrite (match_iso decimal K) by assumption.
    cbn [Str.truthy Re.capY Re.capm Re.capd].
    rewrite (int_year decimal K) by assumption.
    rewrite !(int_two_digits decimal K) by lia. reflexivity. }
  split; [exact E|]. unfold validate_date. rewrite E.
  destruct (valid_date _ _ _); reflexivity.
Qed.

(** X18: zero padding is not required: the text Y-M-D with a month and a day of
    one digit is parsed exactly as the padded text of the same date. *)
Theorem unpadded_dates_validate (decimal : N -> option N) (y1 y2 y3 y4 m d : N) :
  knows_ascii_digits decimal ->
  (y1 < 10)%N -> (y2 < 10)%N -> (y3 < 10)%N -> (y4 < 10)%N ->
  (1 <= m <= 9)%N -> (1 <= d <= 9)%N ->
  strptime decimal (short_text y1 y2 y3 y4 m d)
  = strptime decimal (iso_text y1 y2 y3 y4 m d)
  /\ validate_date decimal (short_text y1 y2 y3 y4 m d)
     = validate_date decimal (iso_text y1 y2 y3 y4 m d).
Proof.
  intros K H1 H2 H3 H4 Hm Hd.
  assert (E : strptime decimal (short_text y1 y2 y3 y4 m d)
              = strptime decimal (iso_text y1 y2 y3 y4 m d)).
  { unfold strptime.
    rewrite (match_iso decimal K), (match_short decimal K) by (assumption || lia).
    cbn [Str.truthy Re.capY Re.capm Re.capd].
    rewrite !(int_two_digits decimal K), !(int_one_digit decimal K) by lia.
    reflexivity. }
  split; [exact E|]. unfold validate_date. rewrite E. reflexivity.
Qed.

Lemma ascii_decimal_knows : knows_ascii_digits ascii_decimal.
Proof.
  intros v Hv. unfold ascii_decimal, digit_char.
  replace ((48 <=? 48 + v) && (48 + v <=? 57))%N with true
    by (symmetry; apply andb_true_iff; split; apply N.leb_le; lia).
  f_equal. lia.
Qed.

(** ** The shape of the dates [validate_date] accepts *)

Lemma rmatch_sound {R} decimal r :
  forall s c (k : pystr -> Re.captures -> option R) res,
    Re.rmatch decimal r s c k = Some res ->
    exists pre s' c', s = pre ++ s' /\ lang decimal r pre /\ k s' c' = Some res.
Proof.
  induction r as [x|lo hi| |a IHa b IHb|a IHa b IHb|g a IHa];
    intros s c k res H; cbn [Re.rmatch] in H.
  - destruct s as [|y t]; [discriminate|].
    destruct (N.eqb_spec y x) as [->|_]; [|discriminate].
    exists [x], t, c. split; [reflexivity|]. split; [reflexivity | exact H].
  - destruct s as [|y t]; [discriminate|].
    destruct ((lo <=? y) && (y <=? hi))%N eqn:E; [|discriminate].
    apply andb_true_iff in E as [E1 E2]. apply N.leb_le in E1, E2.
    exists [y], t, c. split; [reflexivity|]. split; [|exact H].
    exists y. split; [reflexivity | lia].
  - destruct s as [|y t]; [discriminate|].
    destruct (decimal y) as [v|] eqn:E; [|discriminate].
    exists [y], t, c. split; [reflexivity|]. split; [|exact H].
    exists y. split; [reflexivity | rewrite E; eauto].
  - apply IHa in H as (p1 & s1 & c1 & -> & L1 & H).
    apply IHb in H as (p2 & s2 & c2 & -> & L2 & H).
    exists (p1 ++ p2), s2, c2. split; [apply app_assoc|]. split; [|exact H].
    exists p1, p2. auto.
  - destruct (Re.rmatch decimal a s c k) as [res'|] eqn:E.
    + injection H as ->. apply IHa in E as (p & s' & c' & -> & L & E).
      exists p, s', c'. cbn [lang]. auto.
    + apply IHb in H as (p & s' & c' & -> & L & H).
      exists p, s', c'. cbn [lang]. auto.
  - apply IHa in H as (p & s' & c' & -> & L & H).
    exists p, s', (Re.capture g (take (length (p ++ s') - length s') (p ++ s')) c').
    split; [reflexivity|]. split; [exact L | exact H].
Qed.

Lemma lang_year decimal y :
  lang decimal Re.re_Y y -> length y = 4%nat /\ Forall (fun c => is_Some (decimal c)) y.
Proof.
  intros (a & r1 & -> & (c1 & -> & D1) & b & r2 & -> & (c2 & -> & D2)
          & c & d & -> & (c3 & -> & D3) & (c4 & -> & D4)).
  split; [reflexivity | repeat constructor; assumption].
Qed.

Lemma lang_month decimal m :
  lang decimal Re.re_m m -> (1 <= length m <= 2)%nat.
Proof.
  intros [(a & b & -> & -> & (y & -> & _))
         |[(a & b & -> & -> & (y & -> & _)) | (y & -> & _)]];
    cbn [length app]; lia.
Qed.

Lemma lang_day decimal d :
  lang decimal Re.re_d d -> (1 <= length d <= 2)%nat.
Proof.
  intros [(a & b & -> & -> & (y & -> & _))
         |[(a & b & -> & (x & -> & _) & (y & -> & _))
          |[(a & b & -> & -> & (y & -> & _))
           |[(y & -> & _) | (a & b & -> & -> & (y & -> & _))]]]];
    cbn [length app]; lia.
Qed.

(** X19: a text that [validate_date] accepts is a year of four decimal digits,
    a hyphen, a month of one or two characters, a hyphen and a day of one
    or two characters, with nothing before or after: it has from 8 to 10
    characters. *)
Theorem accepted_dates_shape (decimal : N -> option N) (s : pystr) :
  validate_date decimal s = Ret true ->
  exists y m d,
    s = y ++ hyphen :: m ++ hyphen :: d
    /\ length y = 4%nat /\ Forall (fun c => is_Some (decimal c)) y
    /\ (1 <= length m <= 2)%nat /\ (1 <= length d <= 2)%nat
    /\ (8 <= length s <= 10)%nat.
Proof.
  unfold validate_date, strptime, Re.match_prefix. intros H.
  destruct (Re.rmatch decimal Re.date_pattern s Re.no_captures _) as [[c rest]|] eqn:E;
    [|discriminate].
  destruct rest as [|x rest]; [|discriminate]. clear H.
  apply rmatch_sound in E as (p & s' & c' & -> & L & [= _ ->]).
  rewrite app_nil_r.
  destruct L as (y & r1 & -> & Ly & h1 & r2 & -> & -> & m & r3 & -> & Lm
                 & h2 & d & -> & -> & Ld).
  apply lang_year in Ly as [Ly Dy]. apply lang_month in Lm. apply lang_day in Ld.
  exists y, m, d. repeat split; try assumption; try lia;
    cbn [app]; rewrite length_app; cbn [length]; rewrite length_app; cbn [length]; lia.
Qed.

(** * Worked examples *)

Example strptime_iso :
  strptime ascii_decimal (lit "2024-01-31") = Ret {| year := 2024; month := 1; day := 31 |}.
Proof. reflexivity. Qed.

Example strptime_short :
  strptime ascii_decimal (lit "2024-1-5") = Ret {| year := 2024; month := 1; day := 5 |}.
Proof. reflexivity. Qed.

Example strptime_month_backtracks :
  strptime ascii_decimal (lit "2024-10-1") = Ret {| year := 2024; month := 10; day := 1 |}.
Proof. reflexivity. Qed.

Example strptime_no_such_day :
  strptime ascii_decimal (lit "2023-02-29") = Raise (Exception ValueError).
Proof. reflexivity. Qed.

Example strptime_text_remains :
  strptime ascii_decimal (lit "2024-01-310") = Raise (Exception ValueError).
Proof. reflexivity. Qed.

Example strptime_year_zero :
  strptime ascii_decimal (lit "0000-01-01") = Raise (Exception ValueError).
Proof. reflexivity. Qed.

Example validate_date_slashes : validate_date ascii_decimal (lit "2024/01/31") = Ret false.
Proof. reflexivity. Qed.

Example split_keeps_empty_fields :
  Str.split comma (lit "a, b,,c ") = [lit "a"; lit " b"; lit ""; lit "c "].
Proof. reflexivity. Qed.

Example strip_both_ends : Str.strip (lit "  a b  ") = lit "a b".
Proof. reflexivity. Qed.

Example tokens_of_keywords : tokens (lit "a, b,,c ") = [lit "a"; lit "b"; lit "c"].
Proof. reflexivity. Qed.

Example main_reversed_dates :
  main (on_args example_world (with_dates "2024-02-01" "2024-01-31"))
  = ([EPrint LStarting; EPrint LValidationFailed; EPrint (LError ErrDateOrder)],
     Raise (SystemExit 1)).
Proof. reflexivity. Qed.

Example main_same_day_no_keywords_flag :
  List.filter is_engine_event (trace (main (on_args example_world (with_dates "2024-01-31" "2024-01-31"))))
  = [ECrawlerProcess
       (<["LOG_LEVEL" := VStr (lit "ERROR")]>
          (<["END_DATE" := VStr (lit "2024-01-31")]>
             (<["START_DATE" := VStr (lit "2024-01-31")]> example_settings)));
     ECrawl "search"; EStart].
Proof. vm_compute. reflexivity. Qed.

Example main_bad_format_raises :
  outcome (main (on_args example_world (with_dates "2024-13-01" "2024-01-31")))
  = Raise (Exception ValueError).
Proof. reflexivity. Qed.

Example main_bad_flag :
  main rejected_world = ([EPrint LStarting], Raise (SystemExit 2)).
Proof. reflexivity. Qed.

Example main_help_flag :
  main help_world = ([EPrint LStarting; EPrint LHelp], Raise (SystemExit 0)).
Proof. reflexivity. Qed.

Example summary_text_of_no_keyword :
  comma_list (summary_keyword_text (comma_list (lit ", ,"))) = [unset_text].
Proof. reflexivity. Qed.

Example run_drops_duplicates :
  Core.ids (Core.run_tasks 0 example_tasks (Core.fresh [])).1.1
  = [lit "a"; lit "b"; lit "c"; lit "d"].
Proof. vm_compute. reflexivity. Qed.

Example run_with_limit_3 :
  let '(out, l, stopped) := Core.run_tasks 3 example_tasks (Core.fresh []) in
  Core.ids out = [lit "a"; lit "b"; lit "c"] /\ stopped = true
  /\ Core.emitted_count l = 3
  /\ Core.task_index (Core.cursor l) = 0 /\ Core.page_number (Core.cursor l) = 2.
Proof. vm_compute. repeat split. Qed.

Example split_five_days :
  Core.split example_task
  = Some (Core.with_dates example_task 738000 738001,
          Core.with_dates example_task 738002 738004).
Proof. reflexivity. Qed.

(** * The theorems at concrete inputs *)

(** C1 at [--start-date 2024-02-01 --end-date 2024-01-31]. *)
Lemma reversed_dates_are_fatal_witness :
  exists t errors,
    collect_errors example_world (with_dates "2024-02-01" "2024-01-31")
    = (t, Ret errors)
    /\ ErrDateOrder ∈ errors
    /\ main (on_args example_world (with_dates "2024-02-01" "2024-01-31"))
       = (EPrint LStarting :: t ++ EPrint LValidationFailed :: error_lines errors,
          Raise (SystemExit 1))
    /\ exit_status (outcome (main (on_args example_world (with_dates "2024-02-01" "2024-01-31")))) = 1
    /\ Forall (fun ev => past_validation ev = false)
         (trace (main (on_args example_world (with_dates "2024-02-01" "2024-01-31")))).
Proof.
  apply (reversed_dates_are_fatal
           (on_args example_world (with_dates "2024-02-01" "2024-01-31"))
           (with_dates "2024-02-01" "2024-01-31")
           (lit "2024-02-01") (lit "2024-01-31")
           {| year := 2024; month := 2; day := 1 |}
           {| year := 2024; month := 1; day := 31 |});
    reflexivity.
Defined.

(** C8 at [--start-date 2024-01-31 --end-date 2024-01-31]. *)
Lemma equal_dates_pass_order_check_witness :
  EPrint (LError ErrDateOrder)
  ∉ trace (validate_arguments example_world (with_dates "2024-01-31" "2024-01-31")).
Proof.
  refine (proj2 (equal_dates_pass_order_check example_world
                   (with_dates "2024-01-31" "2024-01-31")
                   (lit "2024-01-31") (lit "2024-01-31")
                   {| year := 2024; month := 1; day := 31 |}
                   {| year := 2024; month := 1; day := 31 |} _ _ _ _) _);
    reflexivity.
Defined.

(** C2 at [--keywords ", ,"]. *)
Lemma empty_keyword_list_aborts_witness :
  outcome (main (on_args example_world (with_keywords ", ," None))) = Raise (SystemExit 1)
  /\ exit_status (outcome (main (on_args example_world (with_keywords ", ," None)))) = 1
  /\ Forall (fun ev => is_engine_event ev = false)
       (trace (main (on_args example_world (with_keywords ", ," None)))).
Proof.
  apply (empty_keyword_list_aborts
           (on_args example_world (with_keywords ", ," None))
           (with_keywords ", ," None)
           [] [EPrint (LKeywords []); EPrint (LLimit 5)]
           example_settings blank_keywords_settings).
  - reflexivity.
  - reflexivity.
  - reflexivity.
  - vm_compute. reflexivity.
  - right. exists (lit ", ,"). split; [reflexivity|]. split; [discriminate|].
    repeat constructor.
Defined.



(** C9 at [--keywords "a, b,,c " --region "x , y"]. *)
Lemma keyword_and_region_lists_witness :
  exists t s',
    update_settings_from_args example_settings
      (with_keywords "a, b,,c " (Some (lit "x , y"))) = (t, Ret s')
    /\ s' !! "KEYWORD_LIST" = Some (VList [VStr (lit "a"); VStr (lit "b"); VStr (lit "c")])
    /\ s' !! "REGION" = Some (VList [VStr (lit "x"); VStr (lit "y")]).
Proof.
  destruct (keyword_and_region_lists
              (with_keywords "a, b,,c " (Some (lit "x , y"))) example_settings)
    as (t & s' & E & K & R).
  exists t, s'. split; [exact E|]. split.
  - apply (K (lit "a, b,,c ")); [reflexivity | discriminate].
  - apply (R (lit "x , y")); [reflexivity | discriminate].
Defined.

(** C10 at [--keywords "a, b,,c " --limit 5]: [BOT_NAME] is not touched. *)
Lemma update_settings_frame_witness :
  exists t s',
    update_settings_from_args example_settings (with_keywords "a, b,,c " None)
    = (t, Ret s')
    /\ s' !! "BOT_NAME" = Some (VStr (lit "weibo"))
    /\ s' !! "REGION" = None
    /\ s' !! "LOG_LEVEL" = Some (VStr (lit "ERROR")).
Proof.
  destruct (update_settings_frame (with_keywords "a, b,,c " None) example_settings)
    as (t & s' & E & F & F' & L).
  exists t, s'. split; [exact E|]. split; [|split; [|exact L]].
  - rewrite F'; [reflexivity|]. intros H.
    repeat (apply elem_of_cons in H as [H|H]; [discriminate H|]).
    apply elem_of_nil in H. exact H.
  - rewrite F; [reflexivity|]. intros H.
    unfold supplied_keys, keys_for in H. simpl in H.
    repeat (apply elem_of_cons in H as [H|H]; [discriminate H|]).
    apply elem_of_nil in H. exact H.
Defined.

(** C5 at a task of five days. *)
Lemma split_partitions_days_witness :
  exists a b,
    Core.split example_task = Some (a, b)
    /\ Core.days a ∩ Core.days b = ∅
    /\ Core.days a ∪ Core.days b = Core.days example_task
    /\ Core.date_start a <= Core.date_end a
    /\ Core.date_start b <= Core.date_end b.
Proof.
  apply (proj1 (split_partitions_days example_task)). reflexivity.
Defined.

(** C4 at the limit 3 over the example tasks. *)
Lemma limit_stops_at_exactly_n_witness :
  (Core.run_tasks 3 example_tasks (Core.fresh [])).1.1
  = take 3 (Core.run_tasks 0 example_tasks (Core.fresh [])).1.1
  /\ length (Core.run_tasks 3 example_tasks (Core.fresh [])).1.1 = 3%nat.
Proof.
  pose proof (limit_stops_at_exactly_n 3 example_tasks []) as H.
  destruct (Core.run_tasks 0 example_tasks (Core.fresh [])) as [[out0 l0] s0] eqn:E0.
  destruct (Core.run_tasks 3 example_tasks (Core.fresh [])) as [[out3 l3] s3] eqn:E3.
  destruct H as [_ H]. destruct (H ltac:(lia)) as (Ht & Hlen & Hs & _).
  simpl. split; [exact Ht|].
  assert (Hout : out0 = (Core.run_tasks 0 example_tasks (Core.fresh [])).1.1)
    by (rewrite E0; reflexivity).
  assert (Hl0 : length out0 = 4%nat) by (rewrite Hout; vm_compute; reflexivity).
  rewrite Hl0 in Hlen. lia.
Defined.

(** C3 at the example tasks. *)
Lemma no_content_id_emitted_twice_witness :
  NoDup (Core.ids (Core.run_tasks 0 example_tasks (Core.fresh [])).1.1).
Proof.
  pose proof (no_content_id_emitted_twice 0 example_tasks (Core.fresh [])) as H.
  destruct (Core.run_tasks 0 example_tasks (Core.fresh [])) as [[out l] s].
  exact (proj1 H).
Defined.

(** * The further theorems at concrete inputs *)

(** At [--start-date 2024/01/31 --end-date 2024-02-01]. *)
Lemma unparsable_date_pair_crashes_witness :
  validate_arguments example_world (with_dates "2024/01/31" "2024-02-01")
  = ([], Raise (Exception ValueError))
  /\ main (on_args example_world (with_dates "2024/01/31" "2024-02-01"))
     = ([EPrint LStarting], Raise (Exception ValueError))
  /\ exit_status (outcome (main (on_args example_world (with_dates "2024/01/31" "2024-02-01")))) = 1.
Proof.
  apply (unparsable_date_pair_crashes
           (on_args example_world (with_dates "2024/01/31" "2024-02-01"))
           (with_dates "2024/01/31" "2024-02-01")
           (lit "2024/01/31") (lit "2024-02-01")).
  - reflexivity.
  - reflexivity.
  - reflexivity.
  - discriminate.
  - discriminate.
  - left. reflexivity.
Defined.

(** At [--start-date 2024-02-01 --end-date 2024-01-31]. *)
Lemma validate_arguments_reports_witness :
  validate_arguments example_world (with_dates "2024-02-01" "2024-01-31")
  = ([EPrint LValidationFailed; EPrint (LError ErrDateOrder)], Raise (SystemExit 1)).
Proof.
  exact (validate_arguments_reports example_world
           (with_dates "2024-02-01" "2024-01-31") eq_refl).
Defined.

(** At [--keywords "a, b,,c " --region "x , y" --limit 5], with Ctrl+C
    while the engine runs. *)
Lemma crawl_exception_exit_status_witness :
  outcome (main (on_args interrupted_world
                    (with_keywords "a, b,,c " (Some (lit "x , y")))))
  = Raise (SystemExit 0).
Proof.
  refine (proj1 (crawl_exception_exit_status
                   (on_args interrupted_world
                      (with_keywords "a, b,,c " (Some (lit "x , y"))))
                   (with_keywords "a, b,,c " (Some (lit "x , y")))
                   keywords_settings KeyboardInterrupt _ _ _)).
  - reflexivity.
  - split; [reflexivity|]. exists example_settings.
    split; [reflexivity|]. split; [vm_compute; reflexivity|].
    split; vm_compute; reflexivity.
  - right. right. split; [reflexivity|]. split; reflexivity.
Defined.

(** With no option, when the project settings do not load. *)
Lemma settings_load_failure_witness :
  main (on_args no_settings_world no_args)
  = ([EPrint LStarting; EGetProjectSettings; EPrint (LRuntimeError OtherException)],
     Raise (SystemExit 1)).
Proof.
  exact (settings_load_failure (on_args no_settings_world no_args) no_args
           (Exception OtherException) eq_refl eq_refl eq_refl).
Defined.

(** With no option, when the project has a list for [WEIBO_TYPE]. *)
Lemma ill_typed_settings_abort_witness :
  outcome (main (on_args list_type_world no_args)) = Raise (SystemExit 1)
  /\ last (trace (main (on_args list_type_world no_args)))
     = Some (EPrint (LRuntimeError TypeError))
  /\ List.filter is_engine_event (trace (main (on_args list_type_world no_args))) = [].
Proof.
  apply (ill_typed_settings_abort (on_args list_type_world no_args) no_args
           list_type_settings).
  - reflexivity.
  - reflexivity.
  - reflexivity.
  - vm_compute. reflexivity.
Defined.


(** At 2024-02-29 with the ASCII digits. *)
Lemma iso_dates_validate_witness :
  strptime ascii_decimal (lit "2024-02-29")
  = Ret {| year := 2024; month := 2; day := 29 |}
  /\ validate_date ascii_decimal (lit "2024-02-29") = Ret true.
Proof.
  apply (iso_dates_validate ascii_decimal 2 0 2 4 2 29 ascii_decimal_knows);
    vm_compute; try split; congruence.
Defined.

(** At 2024-1-5 with the ASCII digits. *)
Lemma unpadded_dates_validate_witness :
  strptime ascii_decimal (lit "2024-1-5") = strptime ascii_decimal (lit "2024-01-05")
  /\ validate_date ascii_decimal (lit "2024-1-5")
     = validate_date ascii_decimal (lit "2024-01-05").
Proof.
  apply (unpadded_dates_validate ascii_decimal 2 0 2 4 1 5 ascii_decimal_knows);
    vm_compute; try split; congruence.
Defined.

(** At 2024-01-31 with the ASCII digits. *)
Lemma accepted_dates_shape_witness :
  exists y m d,
    lit "2024-01-31" = y ++ hyphen :: m ++ hyphen :: d
    /\ length y = 4%nat /\ Forall (fun c => is_Some (ascii_decimal c)) y
    /\ (1 <= length m <= 2)%nat /\ (1 <= length d <= 2)%nat
    /\ (8 <= length (lit "2024-01-31") <= 10)%nat.
Proof.
  exact (accepted_dates_shape ascii_decimal (lit "2024-01-31") eq_refl).
Defined.
